(** * telegram_fichas_barcos: the resolution engine of [bot.py]

    A shallow embedding of the pure and stateful parts of [src/bot.py]
    (normalisation, detectors, candidate resolution, unit ordering, the
    document filter, the slot-filling dialog and the finalizer), followed by
    the properties of the specification stated over it.

    Conventions of the embedding.
    - A Python [str] is a [string]; a character is one code point in
      U+0000..U+00FF (Latin-1), which covers every literal of [bot.py]
      (the two accented hints included).  Python's Unicode tables
      ([str.lower], [str.isspace], the regex classes [\w], [\s], [\d]) are
      written out for that range.
    - A catalog row (a [dict] with fixed keys) is the record [entry];
      [context.user_data] is an [option flow]: [None] when the key ["flow"]
      is absent.
    - The chat transport is abstracted: every message sent is one [msg].
    - [rapidfuzz.process.extractOne] is an external collaborator and is a
      variable of the section that uses it.
    - An uncaught Python exception is [Raise]. *)

From Stdlib Require Import List Bool Arith NArith ZArith QArith Lia.
From Stdlib Require Import Ascii String.
From Stdlib Require Import Sorted Permutation RelationClasses.
From Stdlib Require Import OrdersEx.
Import ListNotations.

Local Close Scope Q_scope.
Local Open Scope string_scope.
Local Open Scope list_scope.

(* ================================================================== *)
(** * Characters *)
(* ================================================================== *)

Module Chars.

Definition code (c : ascii) : N := N_of_ascii c.

Definition between (lo hi n : N) : bool := (N.leb lo n && N.leb n hi)%bool.

(** [str.isspace] / regex [\s] on U+0000..U+00FF:
    TAB LF VT FF CR, FS GS RS US, SPACE, NEL, NBSP. *)
Definition is_space (c : ascii) : bool :=
  let n := code c in
  (between 9 13 n || between 28 32 n || N.eqb n 133 || N.eqb n 160)%bool.

(** Regex [\d] (Unicode category Nd) on U+0000..U+00FF. *)
Definition is_digit (c : ascii) : bool := between 48 57 (code c).

(** Regex [\w]: alphanumeric code points and the underscore. *)
Definition is_word (c : ascii) : bool :=
  let n := code c in
  (between 48 57 n || between 65 90 n || between 97 122 n || N.eqb n 95
   || N.eqb n 170 || N.eqb n 181 || N.eqb n 186
   || N.eqb n 178 || N.eqb n 179 || N.eqb n 185 || between 188 190 n
   || between 192 214 n || between 216 246 n || between 248 255 n)%bool.

(** [str.lower] on one code point of U+0000..U+00FF. *)
Definition lower_char (c : ascii) : ascii :=
  let n := code c in
  if (between 65 90 n || (between 192 222 n && negb (N.eqb n 215)))%bool
  then ascii_of_N (n + 32)
  else c.

End Chars.
Import Chars.

(* ================================================================== *)
(** * String helpers ([str] methods used by the source) *)
(* ================================================================== *)

Fixpoint smap (f : ascii -> ascii) (s : string) : string :=
  match s with
  | EmptyString => EmptyString
  | String c s' => String (f c) (smap f s')
  end.

Fixpoint sall (p : ascii -> bool) (s : string) : bool :=
  match s with
  | EmptyString => true
  | String c s' => (p c && sall p s')%bool
  end.

(** [s.lower()] *)
Definition lower (s : string) : string := smap lower_char s.

Fixpoint lstrip (s : string) : string :=
  match s with
  | EmptyString => EmptyString
  | String c s' => if is_space c then lstrip s' else s
  end.

Fixpoint rstrip (s : string) : string :=
  match s with
  | EmptyString => EmptyString
  | String c s' =>
      match rstrip s' with
      | EmptyString => if is_space c then EmptyString else String c EmptyString
      | r => String c r
      end
  end.

(** [s.strip()] *)
Definition strip (s : string) : string := rstrip (lstrip s).

(** [s.split()]: the maximal runs of non-whitespace characters.  [cur] is
    the token being read, reversed. *)
Fixpoint rev_string (acc s : string) : string :=
  match s with
  | EmptyString => acc
  | String c s' => rev_string (String c acc) s'
  end.

Definition flush (cur : string) : list string :=
  match cur with
  | EmptyString => []
  | _ => [rev_string EmptyString cur]
  end.

Fixpoint split_ws (cur s : string) : list string :=
  match s with
  | EmptyString => flush cur
  | String c s' =>
      if is_space c then flush cur ++ split_ws EmptyString s'
      else split_ws (String c cur) s'
  end.

Definition split (s : string) : list string := split_ws EmptyString s.

(** [s.startswith(p)] and the remainder after the prefix. *)
Fixpoint strip_prefix (p s : string) : option string :=
  match p, s with
  | EmptyString, _ => Some s
  | String a p', String b s' => if Ascii.eqb a b then strip_prefix p' s' else None
  | String _ _, EmptyString => None
  end.

(** Truthiness of an optional string: [None] and [""] are falsy. *)
Definition truthy (o : option string) : bool :=
  match o with
  | Some s => negb (String.eqb s "")
  | None => false
  end.

(* ================================================================== *)
(** * normalize *)
(* ================================================================== *)

(** [re.sub(r"[^\w\s#\.]", " ", text)] *)
Definition keep_char (c : ascii) : bool :=
  (is_word c || is_space c || Ascii.eqb c "#" || Ascii.eqb c ".")%bool.

Definition sub_noise (s : string) : string :=
  smap (fun c => if keep_char c then c else " "%char) s.

(** [re.sub(r"\s+", " ", text)]: every maximal whitespace run becomes one
    space.  [in_run] tells that the previous character was whitespace. *)
Fixpoint collapse_ws (in_run : bool) (s : string) : string :=
  match s with
  | EmptyString => EmptyString
  | String c s' =>
      if is_space c
      then (if in_run then collapse_ws true s'
            else String " " (collapse_ws true s'))
      else String c (collapse_ws false s')
  end.

Definition normalize (text : string) : string :=
  let text := strip (lower text) in
  let text := sub_noise text in
  collapse_ws false text.


(* ================================================================== *)
(** * Query detectors *)
(* ================================================================== *)

(** The two accented letters of the hints: U+00F1 and U+00E9. *)
Definition n_tilde : ascii := ascii_of_N 241.
Definition e_acute : ascii := ascii_of_N 233.

(** [LANG_HINTS] and [VARIANT_HINTS], in the insertion order of the dict
    literals, which is the order their [items()] are visited in. *)
Definition LANG_HINTS : list (string * list string) :=
  [ ("es", ["es"; "spa"; "spanish"; ("espa" ++ String n_tilde "ol")%string;
            "espanol"; "castellano"; "spagnolo"]);
    ("en", ["en"; "eng"; "english"; "inglese";
            ("ingl" ++ String e_acute "s")%string; "ingles"]) ].

Definition VARIANT_HINTS : list (string * list string) :=
  [ ("broker", ["broker"; "bf"; "brok"]);
    ("standard", ["standard"; "std"; "normale"]) ].

Definition mem_string (x : string) (l : list string) : bool :=
  existsb (String.eqb x) l.

(** [tokens.intersection(hints)] is non-empty. *)
Definition intersects (tokens hints : list string) : bool :=
  existsb (fun t => mem_string t hints) tokens.

(** The loop shared by [detect_lang] and [detect_variant]: the first
    configured name whose hints meet the tokens. *)
Fixpoint first_hint (table : list (string * list string)) (tokens : list string)
  : option string :=
  match table with
  | [] => None
  | (name, hints) :: rest =>
      if intersects tokens hints then Some name else first_hint rest tokens
  end.

Definition detect_lang (query : string) : option string :=
  first_hint LANG_HINTS (split (normalize query)).

Definition detect_variant (query : string) : option string :=
  first_hint VARIANT_HINTS (split (normalize query)).

(* ------------------------------------------------------------------ *)
(** ** A backtracking matcher for the fragment used by [UNIT_REF_REGEX] *)
(* ------------------------------------------------------------------ *)

Module Regex.

(** Pattern syntax.  Literals are matched under [re.IGNORECASE]. *)
Inductive regex : Type :=
| Eps : regex
| Chr : ascii -> regex                      (* a literal character *)
| Seq : regex -> regex -> regex
| Alt : regex -> regex -> regex             (* r1|r2, r1 tried first *)
| Opt : regex -> regex                      (* r?  greedy *)
| Star : (ascii -> bool) -> regex           (* [class]*  greedy *)
| Rep : (ascii -> bool) -> nat -> nat -> regex  (* [class]{lo,hi} greedy *)
| Group : nat -> regex -> regex.            (* capturing group number n *)

(** Captured groups: number to text. *)
Definition groups := nat -> option string.
Definition no_groups : groups := fun _ => None.
Definition set_group (n : nat) (v : string) (g : groups) : groups :=
  fun m => if Nat.eqb m n then Some v else g m.

(** The text consumed between [s] and its suffix [s']. *)
Definition consumed (s s' : string) : string :=
  substring 0 (String.length s - String.length s') s.

Definition orelse {A} (x y : option A) : option A :=
  match x with Some _ => x | None => y end.

(** Greedy star over a class: take a character when possible, and only
    on failure of the rest try to stop here. *)
Fixpoint star {A} (p : ascii -> bool) (s : string) (k : string -> option A)
  : option A :=
  match s with
  | String c s' => if p c then orelse (star p s' k) (k s) else k s
  | EmptyString => k s
  end.

(** Greedy bounded repetition [{lo,hi}] over a class. *)
Fixpoint rep {A} (p : ascii -> bool) (lo hi : nat) (s : string)
         (k : string -> option A) : option A :=
  let stop := match lo with O => k s | S _ => None end in
  match hi with
  | O => stop
  | S hi' =>
      match s with
      | String c s' =>
          if p c then orelse (rep p (Nat.pred lo) hi' s' k) stop else stop
      | EmptyString => stop
      end
  end.

(** [rmatch r s g k]: match [r] at the head of [s], then run the
    continuation [k] on the rest; backtrack into [r] when [k] fails. *)
Fixpoint rmatch {A} (r : regex) (s : string) (g : groups)
         (k : string -> groups -> option A) : option A :=
  match r with
  | Eps => k s g
  | Chr c =>
      match s with
      | String x s' =>
          if Ascii.eqb (lower_char x) (lower_char c) then k s' g else None
      | EmptyString => None
      end
  | Seq r1 r2 => rmatch r1 s g (fun s1 g1 => rmatch r2 s1 g1 k)
  | Alt r1 r2 => orelse (rmatch r1 s g k) (rmatch r2 s g k)
  | Opt r1 => orelse (rmatch r1 s g k) (k s g)
  | Star p => star p s (fun s' => k s' g)
  | Rep p lo hi => rep p lo hi s (fun s' => k s' g)
  | Group n r1 =>
      rmatch r1 s g (fun s' g' => k s' (set_group n (consumed s s') g'))
  end.

(** A match anchored at the head of [s]. *)
Definition match_here (r : regex) (s : string) : option groups :=
  rmatch r s no_groups (fun _ g => Some g).

(** [pattern.search(s)]: the match at the leftmost start position. *)
Fixpoint search (r : regex) (s : string) : option groups :=
  match match_here r s with
  | Some g => Some g
  | None =>
      match s with
      | EmptyString => None
      | String _ s' => search r s'
      end
  end.

(** A literal word. *)
Fixpoint lit (w : string) : regex :=
  match w with
  | EmptyString => Eps
  | String c w' => Seq (Chr c) (lit w')
  end.

End Regex.
Import Regex.

(** The pattern [(#|unit|unidad|ordine|order|n\.?)\s*(\d{1,5})], compiled
    with [re.IGNORECASE]: the alternation of the first group, then
    [\s*(\d{1,5})]. *)
Definition marker_alts : regex :=
  Alt (lit "#")
 (Alt (lit "unit")
 (Alt (lit "unidad")
 (Alt (lit "ordine")
 (Alt (lit "order")
      (Seq (Chr "n") (Opt (Chr "."))))))).

Definition ref_digits : regex :=
  Seq (Star is_space) (Group 2 (Rep is_digit 1 5)).

Definition UNIT_REF_REGEX : regex :=
  Seq (Group 1 marker_alts) ref_digits.

Definition detect_unit_ref (query : string) : option string :=
  match search UNIT_REF_REGEX query with
  | Some m => m 2
  | None => None
  end.

(** The marker words of the first group, in lower case. *)
Definition unit_markers : list string :=
  ["#"; "unit"; "unidad"; "ordine"; "order"; "n"; "n."].


(* ================================================================== *)
(** * Catalog rows, the document filter and the unit ordering *)
(* ================================================================== *)

(** One element of [CATALOG], as built by [load_catalog]. *)
Record entry : Type := mkEntry {
  brand : string;
  model : string;
  unit_ref : string;
  variant : string;
  lang : string;
  availability : string;
  delivery : string;
  url : string;
  keys_norm : list string
}.

Definition is_empty {A} (l : list A) : bool :=
  match l with [] => true | _ => false end.

(** One guarded comprehension of [filter_doc]:
    [if v: out = [x for x in out if x[field] == v]]. *)
Definition filter_if (v : option string) (field : entry -> string)
           (out : list entry) : list entry :=
  match v with
  | Some w => if truthy v then filter (fun x => String.eqb (field x) w) out
              else out
  | None => out
  end.

Definition filter_doc (cands : list entry)
           (unit_ref_ lang_ variant_ : option string) : list entry :=
  let out := cands in
  let out := filter_if unit_ref_ unit_ref out in
  let out := filter_if lang_ lang out in
  let out := filter_if variant_ variant out in
  out.

(** ** [unique_units] *)

(** String order of Python: lexicographic on code points. *)
Definition str_lt (a b : string) : bool :=
  match String_as_OT.compare a b with Lt => true | _ => false end.

(** The sort key [(av_rank, delivery, unit_ref)] of [unit_rank]. *)
Definition rank : Type := nat * string * string.

Definition unit_rank (u : entry) : rank :=
  let av := availability u in
  let av_rank := if String.eqb av "in_stock" then 0 else 1 in
  (av_rank, delivery u, unit_ref u).

(** [<] on the key tuples: decided by the first component that differs. *)
Definition rank_lt (a b : rank) : bool :=
  let '(a1, a2, a3) := a in
  let '(b1, b2, b3) := b in
  if negb (Nat.eqb a1 b1) then Nat.ltb a1 b1
  else if negb (String.eqb a2 b2) then str_lt a2 b2
  else str_lt a3 b3.

(** [units.setdefault(k, v)] on a dict kept as an association list in
    insertion order. *)
Definition has_key (k : string) (d : list (string * entry)) : bool :=
  existsb (fun kv => String.eqb (fst kv) k) d.

Definition setdefault (k : string) (v : entry) (d : list (string * entry))
  : list (string * entry) :=
  if has_key k d then d else d ++ [(k, v)].

Definition units_of (cands : list entry) : list (string * entry) :=
  fold_left (fun d x => setdefault (unit_ref x) x d) cands [].

(** [units[k]]; [None] stands for [KeyError]. *)
Definition getitem (d : list (string * entry)) (k : string) : option entry :=
  option_map snd (find (fun kv => String.eqb (fst kv) k) d).

(** [sorted(xs, key=...)]: the stable sort, as insertion from the right;
    an element goes before the first later one that is not smaller. *)
Section StableSort.
Context {A K : Type} (key : A -> K) (lt : K -> K -> bool).

Fixpoint insert_sorted (x : A) (l : list A) : list A :=
  match l with
  | [] => [x]
  | y :: l' => if lt (key y) (key x) then y :: insert_sorted x l' else x :: l
  end.

Definition sorted (l : list A) : list A := fold_right insert_sorted [] l.

(** [x] may stand before [y]: [y] is not smaller. *)
Definition not_after (x y : A) : Prop := lt (key y) (key x) = false.
End StableSort.

(** [[units[k] for k in sorted(units.keys(), key=...)]] with the key
    [lambda ur: unit_rank(units[ur])].  The keys are ordered by the rank of the row stored under them and then
    replaced by that row: the items are sorted by the rank of their value
    and the value is projected. *)
Definition unique_units (cands : list entry) : list entry :=
  let units := units_of cands in
  map snd (sorted (fun kv => unit_rank (snd kv)) rank_lt units).

(** Availability "in_stock", and the lexical order of strings. *)
Definition in_stock (u : entry) : Prop := availability u = "in_stock".

Definition lex_lt (a b : string) : Prop := String_as_OT.lt a b.

(** The lexicographic order that [rank_lt] decides. *)
Definition Rank_lt (a b : rank) : Prop :=
  let '(a1, a2, a3) := a in
  let '(b1, b2, b3) := b in
  a1 < b1 \/ (a1 = b1 /\ (lex_lt a2 b2 \/ (a2 = b2 /\ lex_lt a3 b3))).

(** The order of the specification, in its words: in stock before any
    other availability, then the delivery strings in lexical order, then
    the unit references in lexical order. *)
Definition unit_before (a b : entry) : Prop :=
  (in_stock a /\ ~ in_stock b)
  \/ ((in_stock a <-> in_stock b)
      /\ (lex_lt (delivery a) (delivery b)
          \/ (delivery a = delivery b /\ lex_lt (unit_ref a) (unit_ref b)))).

(* ================================================================== *)
(** * Model matching and candidate resolution *)
(* ================================================================== *)

(** Outcome of a computation that may raise. *)
Inductive result (A : Type) : Type :=
| Ok : A -> result A
| Raise : result A.
Arguments Ok {A} _.
Arguments Raise {A}.

Definition bind {A B} (m : result A) (f : A -> result B) : result B :=
  match m with
  | Ok a => f a
  | Raise => Raise
  end.

Notation "' p <- m ;; k" := (bind m (fun p => k))
  (at level 61, p pattern, m at next level, right associativity).

(** [score < 70] *)
Definition below_threshold (score : Q) : bool := negb (Qle_bool 70 score).

Section Resolver.

(** The catalog built once at startup. *)
Variable CATALOG : list entry.

(** [process.extractOne(qn, choices, scorer=fuzz.WRatio)]: [None], or the
    best choice, its score and its index in [choices]. *)
Variable extractOne : string -> list string -> option (string * Q * nat).

Definition choices : list string := flat_map keys_norm CATALOG.

Definition mapping : list entry :=
  flat_map (fun item => map (fun _ => item) (keys_norm item)) CATALOG.

(** Returns [(None, 0)] without a hit; [mapping[hit[2]]] raises
    [IndexError] when the index is out of range. *)
Definition best_model_match (query : string) : result (option entry * Q) :=
  let qn := normalize query in
  match extractOne qn choices with
  | None => Ok (None, 0%Q)
  | Some (_, score, idx) =>
      match nth_error mapping idx with
      | Some item => Ok (Some item, score)
      | None => Raise
      end
  end.

(** The sibling family of [base_item]. *)
Definition family (base_item : entry) : list entry :=
  filter (fun x => (String.eqb (brand x) (brand base_item)
                    && String.eqb (model x) (model base_item))%bool) CATALOG.

Definition candidates_for_query (query : string) : result (list entry * Q) :=
  let want_unit := detect_unit_ref query in
  ' (base_item, score) <- best_model_match query ;;
  match base_item with
  | None => Ok ([], score)
  | Some base =>
      if below_threshold score then Ok ([], score)
      else
        let cands := family base in
        let cands :=
          match want_unit with
          | Some u =>
              if truthy want_unit then
                let filtered :=
                  filter (fun x => String.eqb (unit_ref x) u) cands in
                if negb (is_empty filtered) then filtered else cands
              else cands
          | None => cands
          end in
        Ok (cands, score)
  end.

End Resolver.


(* ================================================================== *)
(** * The interactive flow *)
(* ================================================================== *)

Inductive stage_t : Type := StUnit | StLang | StVariant.

(** [context.user_data["flow"]] *)
Record flow : Type := mkFlow {
  f_query : option string;
  f_cands : list entry;
  f_unit_ref : option string;
  f_lang : option string;
  f_variant : option string;
  f_stage : option stage_t
}.

Definition set_query (q : option string) (f : flow) : flow :=
  mkFlow q (f_cands f) (f_unit_ref f) (f_lang f) (f_variant f) (f_stage f).
Definition set_cands (c : list entry) (f : flow) : flow :=
  mkFlow (f_query f) c (f_unit_ref f) (f_lang f) (f_variant f) (f_stage f).
Definition set_unit_ref (u : option string) (f : flow) : flow :=
  mkFlow (f_query f) (f_cands f) u (f_lang f) (f_variant f) (f_stage f).
Definition set_lang (l : option string) (f : flow) : flow :=
  mkFlow (f_query f) (f_cands f) (f_unit_ref f) l (f_variant f) (f_stage f).
Definition set_variant (v : option string) (f : flow) : flow :=
  mkFlow (f_query f) (f_cands f) (f_unit_ref f) (f_lang f) v (f_stage f).
Definition set_stage (s : option stage_t) (f : flow) : flow :=
  mkFlow (f_query f) (f_cands f) (f_unit_ref f) (f_lang f) (f_variant f) s.

(** What the bot sends; the wording and the keyboard layout are left out. *)
Inductive msg : Type :=
| NoCardFound                    (* run_flow: no candidates *)
| AskUnit (choices : list entry) (* one button per unit, then cancel *)
| AskLang                        (* es / en / cancel *)
| AskVariant                     (* standard / broker / cancel *)
| NoDocument                     (* finalize: nothing compatible *)
| Deliver (item : entry)         (* the card of [item] *)
| AckUnit (u : string)           (* edited message of a unit choice *)
| AckLang (l : string)
| AckVariant (v : string)
| Cancelled                      (* "Operazione annullata" *)
| Welcome.                       (* the help text of /start *)

(** The session store of one user: [None] when the key "flow" is absent. *)
Definition user_data : Type := option flow.

Definition new_flow : flow := mkFlow None [] None None None None.

Definition reset_flow (ud : user_data) : user_data := None.

(** [ensure_flow] creates the flow when absent and returns it; the store
    afterwards holds the returned flow. *)
Definition ensure_flow (ud : user_data) : flow :=
  match ud with
  | Some f => f
  | None => new_flow
  end.

(** The ask functions return [(asked, flow after, messages sent)]. *)
Definition ask_unit (f : flow) : bool * flow * list msg :=
  let units := unique_units (f_cands f) in
  if Nat.leb (List.length units) 1 then
    let u := match units with
             | u0 :: _ => Some (unit_ref u0)
             | [] => None
             end in
    (false, set_unit_ref u f, [])
  else
    (true, set_stage (Some StUnit) f, [AskUnit (firstn 10 units)]).

Definition ask_lang (f : flow) : bool * flow * list msg :=
  if truthy (f_lang f) then (false, f, [])
  else (true, set_stage (Some StLang) f, [AskLang]).

Definition ask_variant (f : flow) : bool * flow * list msg :=
  if truthy (f_variant f) then (false, f, [])
  else (true, set_stage (Some StVariant) f, [AskVariant]).

(** The documents left after the fallback chain of [finalize_and_send]. *)
Definition finalize_docs (f : flow) : list entry :=
  let docs := filter_doc (f_cands f) (f_unit_ref f) (f_lang f) (f_variant f) in
  let docs :=
    if (is_empty docs && truthy (f_lang f) && truthy (f_variant f))%bool
    then filter_doc (f_cands f) (f_unit_ref f) (f_lang f) None else docs in
  let docs :=
    if (is_empty docs && truthy (f_lang f))%bool
    then filter_doc (f_cands f) (f_unit_ref f) (f_lang f) None else docs in
  let docs :=
    if is_empty docs
    then filter_doc (f_cands f) (f_unit_ref f) None None else docs in
  docs.

(** Both exits reset the flow. *)
Definition finalize_and_send (f : flow) : user_data * list msg :=
  match finalize_docs f with
  | [] => (reset_flow (Some f), [NoDocument])
  | item :: _ => (reset_flow (Some f), [Deliver item])
  end.

(** [a or b] on optional strings. *)
Definition py_or (a b : option string) : option string :=
  if truthy a then a else b.

Section Dialog.

Variable CATALOG : list entry.
Variable extractOne : string -> list string -> option (string * Q * nat).

(** Lines 288-296 of [run_flow]: the flow is fetched, not rebuilt, and
    the detectors write over it. *)
Definition prefill (query : string) (ud : user_data) : flow :=
  let f := ensure_flow ud in
  let f := set_query (Some query) f in
  let f := set_lang (py_or (detect_lang query) (f_lang f)) f in
  let f := set_variant (py_or (detect_variant query) (f_variant f)) f in
  let unit := detect_unit_ref query in
  if truthy unit then set_unit_ref unit f else f.

(** Steps 1) to 4) of [run_flow], on the flow holding the candidates. *)
Definition evaluate_slots (f : flow) : user_data * list msg :=
  let '(asked, f, out1) :=
    if negb (truthy (f_unit_ref f)) then ask_unit f else (false, f, []) in
  if asked then (Some f, out1)
  else
    let '(asked, f, out2) := ask_lang f in
    if asked then (Some f, out1 ++ out2)
    else
      let '(asked, f, out3) := ask_variant f in
      if asked then (Some f, out1 ++ out2 ++ out3)
      else
        let '(ud, out4) := finalize_and_send f in
        (ud, out1 ++ out2 ++ out3 ++ out4).

Definition run_flow (query : string) (ud : user_data)
  : result (user_data * list msg) :=
  let f := prefill query ud in
  ' (cands, score) <- candidates_for_query CATALOG extractOne query ;;
  if is_empty cands then Ok (reset_flow (Some f), [NoCardFound])
  else
    let f := set_cands cands f in
    Ok (evaluate_slots f).

(** [handle_text] strips the message text first. *)
Definition handle_text (text : string) (ud : user_data)
  : result (user_data * list msg) :=
  run_flow (strip text) ud.

End Dialog.

(** [/start] and [/cancel]. *)
Definition start (ud : user_data) : user_data * list msg :=
  (reset_flow ud, [Welcome]).

Definition cancel (ud : user_data) : user_data * list msg :=
  (reset_flow ud, [Cancelled]).

(** [handle_callback], on the callback data [data]. *)
Definition handle_callback (data : string) (ud : user_data)
  : user_data * list msg :=
  let f := ensure_flow ud in
  if String.eqb data "CANCEL" then (reset_flow (Some f), [Cancelled])
  else
    match strip_prefix "UNIT:" data with
    | Some unit =>
        let f := set_unit_ref (Some unit) f in
        let '(_, f, out) := ask_lang f in
        (Some f, AckUnit unit :: out)
    | None =>
        match strip_prefix "LANG:" data with
        | Some l =>
            let f := set_lang (Some l) f in
            let '(_, f, out) := ask_variant f in
            (Some f, AckLang l :: out)
        | None =>
            match strip_prefix "VAR:" data with
            | Some v =>
                let f := set_variant (Some v) f in
                let '(ud', out) := finalize_and_send f in
                (ud', AckVariant v :: out)
            | None => (Some f, [])
            end
        end
    end.

(* ================================================================== *)
(** * The aliases of a catalog row *)
(* ================================================================== *)

(** [s.split(sep)] for a one-character separator: the pieces between the
    separators, at least one.  [cur] is the piece being read, reversed. *)
Fixpoint split_on (sep : ascii) (cur s : string) : list string :=
  match s with
  | EmptyString => [rev_string EmptyString cur]
  | String c s' =>
      if Ascii.eqb c sep
      then rev_string EmptyString cur :: split_on sep EmptyString s'
      else split_on sep (String c cur) s'
  end.

(** Lines 103-104 of [load_catalog], on the text of the Aliases cell:
    [[a.strip() for a in raw_aliases.split("|") if a.strip()]]. *)
Definition parse_aliases (raw_aliases : string) : list string :=
  map strip
      (filter (fun a => negb (String.eqb (strip a) ""))
              (split_on "|" EmptyString raw_aliases)).

(* ================================================================== *)
(** * Vocabulary of the properties *)
(* ================================================================== *)

(** A character [normalize] lets through unchanged and that is not
    whitespace: a word character, [#] or [.]. *)
Definition plain_char (c : ascii) : bool :=
  (is_word c || Ascii.eqb c "#" || Ascii.eqb c ".")%bool.

(** A character of a normalized text: the space, or a plain character that
    [str.lower] leaves alone. *)
Definition norm_char (c : ascii) : bool :=
  (Ascii.eqb c " " || (plain_char c && Ascii.eqb (lower_char c) c))%bool.

(** [tidy in_run s]: every character of [s] is a [norm_char] and no space
    follows a space; [in_run] tells that a space stands just before [s]. *)
Fixpoint tidy (in_run : bool) (s : string) : bool :=
  match s with
  | EmptyString => true
  | String c s' =>
      if Ascii.eqb c " " then (negb in_run && tidy true s')%bool
      else (plain_char c && Ascii.eqb (lower_char c) c && tidy false s')%bool
  end.

(** What [normalize] makes of one character before blanks are collapsed:
    its lower case, or a space when that is noise. *)
Definition fold_char (c : ascii) : ascii :=
  if keep_char (lower_char c) then lower_char c else " "%char.

(** A character that separates words for the detectors: whitespace, or
    punctuation that [normalize] turns into a space. *)
Definition is_sep (c : ascii) : bool := is_space (fold_char c).

(** The hints configured under one name of a hint table. *)
Definition hints_of (table : list (string * list string)) (name : string)
  : list string :=
  match find (fun e => String.eqb (fst e) name) table with
  | Some e => snd e
  | None => []
  end.

(** [pre] is empty or ends with a separator; [post] is empty or starts
    with one. *)
Definition ends_at_sep (pre : string) : Prop :=
  pre = "" \/ exists p c, pre = (p ++ String c "")%string /\ is_sep c = true.

Definition starts_at_sep (post : string) : Prop :=
  post = "" \/ exists c p, post = String c p /\ is_sep c = true.

(** A character at which a match of [UNIT_REF_REGEX] can start: one that
    lower-cases to the first character of a marker. *)
Definition marker_start (c : ascii) : bool :=
  let l := lower_char c in
  (Ascii.eqb l "#" || Ascii.eqb l "u" || Ascii.eqb l "o" || Ascii.eqb l "n")%bool.

(** [rest] does not go on with a digit. *)
Definition no_digit_ahead (rest : string) : bool :=
  match rest with
  | EmptyString => true
  | String c _ => negb (is_digit c)
  end.

(** A row agrees with a slot: the slot is falsy, or it holds the row's
    value. *)
Definition slot_ok (slot : option string) (value : string) : bool :=
  match slot with
  | Some w => (negb (truthy slot) || String.eqb value w)%bool
  | None => true
  end.

(* ================================================================== *)
(** * Sample data used to run the model *)
(* ================================================================== *)

Module Sample.

(** Two units of the Pardo P43 (one with two documents) and one SO455. *)
Definition p43_126_es : entry :=
  mkEntry "Pardo" "P43" "126" "standard" "es" "sold" "2025-03"
          "https://example.org/p43-126-es" ["p43"; "pardo p43"].
Definition p43_126_en : entry :=
  mkEntry "Pardo" "P43" "126" "broker" "en" "sold" "2025-03"
          "https://example.org/p43-126-en" ["p43"; "pardo p43"].
Definition p43_131_es : entry :=
  mkEntry "Pardo" "P43" "131" "standard" "es" "in_stock" "2026-01"
          "https://example.org/p43-131-es" ["p43"; "pardo p43"].
Definition so455_12_es : entry :=
  mkEntry "Jeanneau" "SO455" "12" "standard" "es" "in_stock" "2025-09"
          "https://example.org/so455-12-es" ["so455"; "jeanneau so455"].

Definition catalog : list entry :=
  [p43_126_es; p43_126_en; p43_131_es; so455_12_es].

(** A stand-in for the external scorer: the first key that is a prefix of
    the normalized query scores 100; otherwise the first key scores 0. *)
Fixpoint first_prefix (qn : string) (keys : list string) (i : nat)
  : option (string * nat) :=
  match keys with
  | [] => None
  | k :: rest =>
      if String.prefix k qn then Some (k, i) else first_prefix qn rest (S i)
  end.

Definition prefix_scorer (qn : string) (keys : list string)
  : option (string * Q * nat) :=
  match first_prefix qn keys 0 with
  | Some (k, i) => Some (k, 100%Q, i)
  | None =>
      match keys with
      | [] => None
      | k :: _ => Some (k, 0%Q, 0)
      end
  end.

(** The session the code reaches on "SO455 #49" once language and
    variant are answered: the detector stored unit 49, the resolver kept
    the whole family because no row has that unit. *)
Definition flow_unit_49 : flow :=
  mkFlow (Some "SO455 #49") [so455_12_es] (Some "49") (Some "es")
         (Some "standard") (Some StVariant).

(** A session waiting for the unit, the language already known. *)
Definition flow_awaiting_unit : flow :=
  mkFlow (Some "pardo p43 es") [p43_126_es; p43_126_en; p43_131_es]
         None (Some "es") None (Some StUnit).

(** A broker document of unit 131, in Spanish. *)
Definition p43_131_es_bf : entry :=
  mkEntry "Pardo" "P43" "131" "broker" "es" "in_stock" "2026-01"
          "https://example.org/p43-131-es-bf" ["p43"; "pardo p43"].

(** Unit 131 is wanted in English and as broker document; its two
    documents are Spanish. *)
Definition flow_131_en_broker : flow :=
  mkFlow (Some "pardo p43 #131 broker en") [p43_131_es; p43_131_es_bf]
         (Some "131") (Some "en") (Some "broker") None.

(** Unit 126 is wanted in English and as standard document; its English
    document is the broker one. *)
Definition flow_126_en_standard : flow :=
  mkFlow (Some "pardo p43 #126 std en") [p43_126_es; p43_126_en; p43_131_es]
         (Some "126") (Some "en") (Some "standard") None.

End Sample.


(* ================================================================== *)
(** * Properties *)
(* ================================================================== *)

(** ** normalize *)

(** The testable property of the specification on case. *)
Example normalize_case_insensitive_example :
  normalize "Pardo P43" = normalize "pardo p43".
Proof. reflexivity. Qed.

Lemma lower_char_idempotent c : lower_char (lower_char c) = lower_char c.
Proof.
  destruct c as [[] [] [] [] [] [] [] []]; vm_compute; reflexivity.
Qed.

Lemma lower_idempotent s : lower (lower s) = lower s.
Proof.
  unfold lower. induction s as [|c s IH]; cbn [smap]; [reflexivity|].
  rewrite lower_char_idempotent, IH. reflexivity.
Qed.

(** Letter case is irrelevant to [normalize]. *)
Lemma normalize_ignores_case text : normalize (lower text) = normalize text.
Proof. unfold normalize. rewrite lower_idempotent. reflexivity. Qed.

(** C4 (evaluated on the code).  [normalize] strips before it replaces
    punctuation by spaces, so a query that ends in a punctuation mark keeps a
    trailing space: [normalize "foo!" = "foo "], the output is not trimmed,
    and normalising it again gives ["foo"], so [normalize] is not
    idempotent. *)
Theorem normalize_not_trimmed_not_idempotent :
  normalize "foo!" = "foo "
  /\ normalize (normalize "foo!") = "foo"
  /\ normalize (normalize "foo!") <> normalize "foo!".
Proof.
  repeat split; try reflexivity.
  vm_compute. discriminate.
Qed.

(** ** filter_doc *)

Lemma filter_if_falsy (v : option string) (field : entry -> string) out :
  truthy v = false -> filter_if v field out = out.
Proof.
  intros H. unfold filter_if. destruct v; [rewrite H|]; reflexivity.
Qed.

Lemma filter_if_incl v field out x :
  In x (filter_if v field out) -> In x out.
Proof.
  unfold filter_if. destruct v as [w|]; [destruct (truthy (Some w))|]; auto.
  intros H. apply filter_In in H. tauto.
Qed.

Lemma filter_doc_incl cands u l v x :
  In x (filter_doc cands u l v) -> In x cands.
Proof.
  unfold filter_doc. intros H.
  repeat apply filter_if_incl in H. exact H.
Qed.

(** C10.  [filter_doc cands None None None] is [cands], and an empty string
    in any of the three filter positions behaves exactly as [None] there,
    whatever the other two arguments are: a falsy value never excludes a
    row. *)
Theorem filter_doc_falsy_is_no_constraint (cands : list entry)
        (u l v : option string) :
  filter_doc cands None None None = cands
  /\ filter_doc cands (Some "") l v = filter_doc cands None l v
  /\ filter_doc cands u (Some "") v = filter_doc cands u None v
  /\ filter_doc cands u l (Some "") = filter_doc cands u l None.
Proof.
  repeat split; reflexivity.
Qed.

(** The same with the falsy values left abstract. *)
Lemma filter_doc_all_falsy cands u l v :
  truthy u = false -> truthy l = false -> truthy v = false ->
  filter_doc cands u l v = cands.
Proof.
  intros Hu Hl Hv. unfold filter_doc.
  rewrite (filter_if_falsy v), (filter_if_falsy l), (filter_if_falsy u); auto.
Qed.

(** ** finalize_and_send *)

Lemma filter_if_nil v field : filter_if v field [] = [].
Proof.
  unfold filter_if. destruct v as [w|]; [destruct (truthy (Some w))|]; reflexivity.
Qed.

(** Dropping a filter can only widen the result. *)
Lemma filter_doc_drop_variant_nil cands u l v :
  filter_doc cands u l None = [] -> filter_doc cands u l v = [].
Proof.
  unfold filter_doc. cbn. intros H. rewrite H. apply filter_if_nil.
Qed.

Lemma filter_doc_drop_lang_nil cands u l :
  filter_doc cands u None None = [] -> filter_doc cands u l None = [].
Proof.
  unfold filter_doc. cbn. intros H. rewrite H. apply filter_if_nil.
Qed.

Lemma finalize_docs_last_step f :
  finalize_docs f = [] <->
  filter_doc (f_cands f) (f_unit_ref f) None None = [].
Proof.
  unfold finalize_docs.
  pose proof (filter_doc_drop_variant_nil (f_cands f) (f_unit_ref f)
                (f_lang f) (f_variant f)) as H32.
  pose proof (filter_doc_drop_lang_nil (f_cands f) (f_unit_ref f)
                (f_lang f)) as H21.
  destruct (filter_doc (f_cands f) (f_unit_ref f) (f_lang f) (f_variant f))
    as [|x3 d3];
    destruct (filter_doc (f_cands f) (f_unit_ref f) (f_lang f) None)
    as [|x2 d2];
    destruct (filter_doc (f_cands f) (f_unit_ref f) None None) as [|x1 d1];
    destruct (truthy (f_lang f)); destruct (truthy (f_variant f)); cbn;
    split; intros H; try reflexivity; try discriminate;
    try (specialize (H21 eq_refl); discriminate);
    try (specialize (H32 eq_refl); discriminate).
Qed.

Lemma finalize_docs_incl f x : In x (finalize_docs f) -> In x (f_cands f).
Proof.
  unfold finalize_docs.
  repeat match goal with
         | |- context [if ?b then _ else _] => destruct b
         end; apply filter_doc_incl.
Qed.

Lemma finalize_docs_exact f :
  filter_doc (f_cands f) (f_unit_ref f) (f_lang f) (f_variant f) <> [] ->
  finalize_docs f
  = filter_doc (f_cands f) (f_unit_ref f) (f_lang f) (f_variant f).
Proof.
  unfold finalize_docs.
  destruct (filter_doc (f_cands f) (f_unit_ref f) (f_lang f) (f_variant f));
    [contradiction | reflexivity].
Qed.

(** The chain stops at one of three filters, tried in this order. *)
Lemma finalize_docs_cases f :
  let c := f_cands f in
  let u := f_unit_ref f in
  (filter_doc c u (f_lang f) (f_variant f) <> []
   /\ finalize_docs f = filter_doc c u (f_lang f) (f_variant f))
  \/ (filter_doc c u (f_lang f) (f_variant f) = []
      /\ truthy (f_lang f) = true
      /\ filter_doc c u (f_lang f) None <> []
      /\ finalize_docs f = filter_doc c u (f_lang f) None)
  \/ (filter_doc c u (f_lang f) (f_variant f) = []
      /\ (truthy (f_lang f) = true -> filter_doc c u (f_lang f) None = [])
      /\ finalize_docs f = filter_doc c u None None).
Proof.
  cbn zeta. unfold finalize_docs.
  destruct (filter_doc (f_cands f) (f_unit_ref f) (f_lang f) (f_variant f))
    as [|x3 d3] eqn:E3.
  2:{ left. split; [discriminate | reflexivity]. }
  right. cbn [is_empty andb].
  destruct (truthy (f_lang f)) eqn:El.
  - destruct (filter_doc (f_cands f) (f_unit_ref f) (f_lang f) None)
      as [|x2 d2] eqn:E2.
    + right. split; [reflexivity|]. split; [intros _; reflexivity|].
      destruct (truthy (f_variant f)); reflexivity.
    + left. split; [reflexivity|]. split; [reflexivity|].
      split; [discriminate|].
      destruct (truthy (f_variant f)); reflexivity.
  - right. split; [reflexivity|]. split; [discriminate|]. reflexivity.
Qed.

(** The unit filter alone keeps the order of the candidates: its first
    document is the first candidate that passes it. *)
Lemma filter_doc_unit_first cands u pre x post :
  cands = pre ++ x :: post ->
  (forall y, In y pre -> slot_ok u (unit_ref y) = false) ->
  slot_ok u (unit_ref x) = true ->
  exists rest, filter_doc cands u None None = x :: rest.
Proof.
  intros -> Hpre Hx. unfold filter_doc. cbn [filter_if].
  unfold filter_if, slot_ok in *. destruct u as [w|].
  - destruct (truthy (Some w)); cbn [negb orb] in *.
    + induction pre as [|a pre IH]; cbn.
      * rewrite Hx. eexists. reflexivity.
      * rewrite (Hpre a (or_introl eq_refl)). apply IH.
        intros y Hy. apply Hpre. right. exact Hy.
    + destruct pre as [|a pre]; [eexists; reflexivity|].
      specialize (Hpre a (or_introl eq_refl)). discriminate.
  - destruct pre as [|a pre]; [eexists; reflexivity|].
    specialize (Hpre a (or_introl eq_refl)). discriminate.
Qed.

(** C1, as the code has it.  On a session with candidates the chain ends
    with the step that keeps the unit filter alone (no filter at all when
    the unit slot is unset or empty) and returns the first candidate in set
    order that passes it; finalize reports that no document was found
    exactly when no candidate passes the unit filter alone.  At every step
    the first matching entry in set order is delivered: of the exact
    filter; else, with the language set, of the unit and language filter;
    else of the unit filter.  In particular, with the unit slot unset a
    document of the candidate set is always delivered, whatever language
    and variant are, and the last step returns the first raw candidate.
    The last step read on the positions of the candidate set: it delivers
    the candidate that passes the unit filter and has no passing candidate
    before it. *)
Theorem finalize_nomatch_iff_unit_filter_empty (f : flow) :
  f_cands f <> [] ->
  (finalize_and_send f = (None, [NoDocument]) <->
   filter_doc (f_cands f) (f_unit_ref f) None None = [])
  /\ (forall x rest,
        filter_doc (f_cands f) (f_unit_ref f) (f_lang f) (f_variant f)
        = x :: rest ->
        finalize_and_send f = (None, [Deliver x]))
  /\ (forall x rest,
        filter_doc (f_cands f) (f_unit_ref f) (f_lang f) (f_variant f) = [] ->
        truthy (f_lang f) = true ->
        filter_doc (f_cands f) (f_unit_ref f) (f_lang f) None = x :: rest ->
        finalize_and_send f = (None, [Deliver x]))
  /\ (forall x rest,
        filter_doc (f_cands f) (f_unit_ref f) (f_lang f) (f_variant f) = [] ->
        (truthy (f_lang f) = true ->
         filter_doc (f_cands f) (f_unit_ref f) (f_lang f) None = []) ->
        filter_doc (f_cands f) (f_unit_ref f) None None = x :: rest ->
        finalize_and_send f = (None, [Deliver x]))
  /\ (truthy (f_unit_ref f) = false ->
      exists item, In item (f_cands f)
                   /\ finalize_and_send f = (None, [Deliver item]))
  /\ (truthy (f_unit_ref f) = false ->
      forall c0 rest,
        f_cands f = c0 :: rest ->
        filter_doc (f_cands f) (f_unit_ref f) (f_lang f) (f_variant f) = [] ->
        (truthy (f_lang f) = true ->
         filter_doc (f_cands f) (f_unit_ref f) (f_lang f) None = []) ->
        finalize_and_send f = (None, [Deliver c0]))
  /\ (forall pre x post,
        f_cands f = pre ++ x :: post ->
        (forall y, In y pre -> slot_ok (f_unit_ref f) (unit_ref y) = false) ->
        slot_ok (f_unit_ref f) (unit_ref x) = true ->
        filter_doc (f_cands f) (f_unit_ref f) (f_lang f) (f_variant f) = [] ->
        (truthy (f_lang f) = true ->
         filter_doc (f_cands f) (f_unit_ref f) (f_lang f) None = []) ->
        finalize_and_send f = (None, [Deliver x])).
Proof.
  intros Hne.
  assert (Hlast : forall x rest,
    filter_doc (f_cands f) (f_unit_ref f) (f_lang f) (f_variant f) = [] ->
    (truthy (f_lang f) = true ->
     filter_doc (f_cands f) (f_unit_ref f) (f_lang f) None = []) ->
    filter_doc (f_cands f) (f_unit_ref f) None None = x :: rest ->
    finalize_and_send f = (None, [Deliver x])).
  { intros x rest H3 H2 H1. unfold finalize_and_send, reset_flow.
    destruct (finalize_docs_cases f) as [[N _]|[[_ [T [N _]]]|[_ [_ E]]]].
    - contradiction.
    - exfalso. apply N, H2, T.
    - rewrite E, H1. reflexivity. }
  split; [|split; [|split; [|split; [exact Hlast|split; [|split]]]]].
  - rewrite <- finalize_docs_last_step. unfold finalize_and_send, reset_flow.
    destruct (finalize_docs f); split; intros H;
      try reflexivity; try discriminate.
  - intros x rest H. unfold finalize_and_send, reset_flow.
    rewrite finalize_docs_exact by (rewrite H; discriminate).
    rewrite H. reflexivity.
  - intros x rest H3 T H2. unfold finalize_and_send, reset_flow.
    destruct (finalize_docs_cases f) as [[N _]|[[_ [_ [_ E]]]|[_ [N _]]]].
    + contradiction.
    + rewrite E, H2. reflexivity.
    + rewrite (N T) in H2. discriminate.
  - intros Hu.
    assert (Hd : finalize_docs f <> []).
    { rewrite finalize_docs_last_step.
      unfold filter_doc. cbn. rewrite filter_if_falsy by exact Hu. exact Hne. }
    pose proof (finalize_docs_incl f) as Hin.
    unfold finalize_and_send, reset_flow.
    destruct (finalize_docs f) as [|item rest]; [contradiction|].
    exists item. split; [apply Hin; left; reflexivity | reflexivity].
  - intros Hu c0 rest Hc H3 H2.
    apply (Hlast c0 rest H3 H2).
    unfold filter_doc. cbn. rewrite filter_if_falsy by exact Hu. exact Hc.
  - intros pre x post Hc Hpre Hx H3 H2.
    destruct (filter_doc_unit_first _ _ _ _ _ Hc Hpre Hx) as [rest H1].
    exact (Hlast x rest H3 H2 H1).
Qed.

Lemma finalize_nomatch_iff_unit_filter_empty_witness :
  f_cands Sample.flow_awaiting_unit <> []
  /\ filter_doc (f_cands Sample.flow_awaiting_unit)
                (f_unit_ref Sample.flow_awaiting_unit)
                (f_lang Sample.flow_awaiting_unit)
                (f_variant Sample.flow_awaiting_unit)
     = [Sample.p43_126_es; Sample.p43_131_es]
  /\ finalize_and_send Sample.flow_awaiting_unit
     = (None, [Deliver Sample.p43_126_es]).
Proof.
  assert (H : f_cands Sample.flow_awaiting_unit <> []) by (simpl; discriminate).
  assert (E : filter_doc (f_cands Sample.flow_awaiting_unit)
                         (f_unit_ref Sample.flow_awaiting_unit)
                         (f_lang Sample.flow_awaiting_unit)
                         (f_variant Sample.flow_awaiting_unit)
              = [Sample.p43_126_es; Sample.p43_131_es]) by reflexivity.
  split; [exact H|]. split; [exact E|].
  exact (proj1 (proj2 (finalize_nomatch_iff_unit_filter_empty
                         Sample.flow_awaiting_unit H)) _ _ E).
Defined.

(** C1 fails as stated: the candidate set of this session is not empty and
    finalize reports that no document was found, because the unit slot
    holds a unit no candidate has. *)
Lemma finalize_nomatch_with_candidates :
  f_cands Sample.flow_unit_49 <> []
  /\ finalize_and_send Sample.flow_unit_49 = (None, [NoDocument]).
Proof.
  split; [simpl; discriminate | reflexivity].
Qed.

(** That session is the one the dialog builds for the query "SO455 #49":
    the unit question is skipped because the detector filled the slot, the
    two answers follow, and the variant answer runs finalize. *)
Example dialog_unit_49_ends_without_document :
  exists ud1 ud2,
    run_flow Sample.catalog Sample.prefix_scorer "SO455 #49" None
    = Ok (ud1, [AskLang])
    /\ handle_callback "LANG:es" ud1 = (ud2, [AckLang "es"; AskVariant])
    /\ handle_callback "VAR:standard" ud2
       = (None, [AckVariant "standard"; NoDocument]).
Proof.
  do 2 eexists. split; [vm_compute; reflexivity|].
  split; vm_compute; reflexivity.
Qed.

(** ** handle_callback *)

Lemma finalize_docs_set_stage st f :
  finalize_docs (set_stage st f) = finalize_docs f.
Proof. reflexivity. Qed.

(** The failing input of C2 is a state the dialog reaches: the query names
    the language, the family has two units, the unit is asked. *)
Example run_flow_reaches_awaiting_unit :
  exists q,
    run_flow Sample.catalog Sample.prefix_scorer "pardo p43 es" None
    = Ok (Some Sample.flow_awaiting_unit, [q]).
Proof. eexists. vm_compute. reflexivity. Qed.

(** C2 (evaluated on the code).  A unit answer is stored, but the handler
    then only calls [ask_lang]: when the language is already known nothing
    more happens.  The only message is the acknowledgement; the variant is
    neither asked nor is a document delivered, and the session stays open
    with its other slots and its stage as they were. *)
Theorem unit_answer_stops_when_lang_known (f : flow) (unit : string) :
  truthy (f_lang f) = true ->
  handle_callback ("UNIT:" ++ unit) (Some f)
  = (Some (set_unit_ref (Some unit) f), [AckUnit unit]).
Proof.
  intros Hl. unfold handle_callback, ask_lang. cbn.
  rewrite Hl. reflexivity.
Qed.

Lemma unit_answer_stops_when_lang_known_witness :
  truthy (f_lang Sample.flow_awaiting_unit) = true
  /\ handle_callback "UNIT:126" (Some Sample.flow_awaiting_unit)
     = (Some (set_unit_ref (Some "126") Sample.flow_awaiting_unit),
        [AckUnit "126"]).
Proof.
  split; [reflexivity|].
  apply (unit_answer_stops_when_lang_known Sample.flow_awaiting_unit "126").
  reflexivity.
Defined.

(** The language answer has the same gap: with the variant already known,
    [ask_variant] declines and finalize is not run. *)
Lemma lang_answer_stops_when_variant_known (f : flow) (l : string) :
  truthy (f_variant f) = true ->
  handle_callback ("LANG:" ++ l) (Some f)
  = (Some (set_lang (Some l) f), [AckLang l]).
Proof.
  intros Hv. unfold handle_callback, ask_variant. cbn.
  rewrite Hv. reflexivity.
Qed.



(** ** unique_units *)

(** *** The stable insertion sort *)

Section StableSortFacts.
Context {A K : Type} (key : A -> K) (lt : K -> K -> bool).

Hypothesis lt_asym : forall a b, lt a b = true -> lt b a = false.
Hypothesis not_lt_trans :
  forall a b c, lt b a = false -> lt c b = false -> lt c a = false.

Lemma insert_sorted_perm x l : Permutation (x :: l) (insert_sorted key lt x l).
Proof.
  induction l as [|y l IH]; cbn; [reflexivity|].
  destruct (lt (key y) (key x)); [|reflexivity].
  rewrite perm_swap. constructor. exact IH.
Qed.

Lemma sorted_perm l : Permutation l (sorted key lt l).
Proof.
  induction l as [|x l IH]; cbn; [constructor|].
  rewrite <- insert_sorted_perm. constructor. exact IH.
Qed.

Lemma insert_sorted_ordered x l :
  StronglySorted (not_after key lt) l ->
  StronglySorted (not_after key lt) (insert_sorted key lt x l).
Proof.
  induction 1 as [|y l Hs IH Hall]; cbn.
  - repeat constructor.
  - destruct (lt (key y) (key x)) eqn:E.
    + constructor; [exact IH|].
      rewrite <- insert_sorted_perm. constructor; [|exact Hall].
      apply lt_asym. exact E.
    + constructor; [constructor; assumption|].
      constructor; [exact E|].
      rewrite Forall_forall in *. intros z Hz.
      unfold not_after in *. eapply not_lt_trans; [exact E | auto].
Qed.

Lemma sorted_ordered l : StronglySorted (not_after key lt) (sorted key lt l).
Proof.
  induction l as [|x l IH]; cbn; [constructor|].
  apply insert_sorted_ordered. exact IH.
Qed.

End StableSortFacts.

(** *** The order on ranks *)

Lemma str_lt_iff a b : str_lt a b = true <-> lex_lt a b.
Proof.
  unfold str_lt, lex_lt, String_as_OT.lt.
  destruct (String_as_OT.compare a b); split; congruence.
Qed.

Lemma lex_lt_irrefl a : ~ lex_lt a a.
Proof. apply (StrictOrder_Irreflexive (R := String_as_OT.lt)). Qed.

Lemma lex_lt_trans a b c : lex_lt a b -> lex_lt b c -> lex_lt a c.
Proof. apply (StrictOrder_Transitive (R := String_as_OT.lt)). Qed.

Lemma lex_lt_trichotomy a b : lex_lt a b \/ a = b \/ lex_lt b a.
Proof.
  unfold lex_lt.
  destruct (String_as_OT.compare_spec a b); auto.
Qed.

Lemma rank_lt_iff a b : rank_lt a b = true <-> Rank_lt a b.
Proof.
  destruct a as [[a1 a2] a3], b as [[b1 b2] b3]. unfold rank_lt, Rank_lt.
  destruct (Nat.eqb_spec a1 b1) as [E1|N1]; simpl negb; cbv iota.
  - destruct (String.eqb_spec a2 b2) as [E2|N2]; simpl negb; cbv iota.
    + rewrite str_lt_iff. subst. split; [auto|].
      intros [H|[_ [H|[_ H]]]]; [lia| |exact H].
      exfalso. exact (lex_lt_irrefl _ H).
    + rewrite str_lt_iff. split; [auto|].
      intros [H|[_ [H|[H _]]]]; [lia|exact H|contradiction].
  - rewrite Nat.ltb_lt. split; [auto|]. intros [H|[H _]]; [exact H|contradiction].
Qed.

Lemma Rank_lt_irrefl a : ~ Rank_lt a a.
Proof.
  destruct a as [[a1 a2] a3]. cbn.
  intros [H|[_ [H|[_ H]]]]; [lia | |]; exact (lex_lt_irrefl _ H).
Qed.

Lemma Rank_lt_trans a b c : Rank_lt a b -> Rank_lt b c -> Rank_lt a c.
Proof.
  destruct a as [[a1 a2] a3], b as [[b1 b2] b3], c as [[c1 c2] c3]. cbn.
  intros [H|[E [H|[E' H]]]] [G|[F [G|[F' G]]]]; subst;
    try (left; lia); right; split; try reflexivity;
    try (left; assumption);
    try (left; eapply lex_lt_trans; eassumption).
  right. split; [reflexivity|]. eapply lex_lt_trans; eassumption.
Qed.

Lemma Rank_lt_trichotomy a b : Rank_lt a b \/ a = b \/ Rank_lt b a.
Proof.
  destruct a as [[a1 a2] a3], b as [[b1 b2] b3]. cbn.
  destruct (Nat.lt_trichotomy a1 b1) as [H|[H|H]]; auto; subst.
  destruct (lex_lt_trichotomy a2 b2) as [H|[H|H]]; auto 6; subst.
  destruct (lex_lt_trichotomy a3 b3) as [H|[H|H]]; auto 8; subst; auto.
Qed.

Lemma rank_lt_asym a b : rank_lt a b = true -> rank_lt b a = false.
Proof.
  intros H. apply rank_lt_iff in H.
  destruct (rank_lt b a) eqn:E; [|reflexivity].
  apply rank_lt_iff in E. exfalso.
  exact (Rank_lt_irrefl _ (Rank_lt_trans _ _ _ H E)).
Qed.

Lemma rank_not_lt_iff a b : rank_lt b a = false <-> (a = b \/ Rank_lt a b).
Proof.
  split.
  - intros H. destruct (Rank_lt_trichotomy a b) as [G|[G|G]]; auto.
    apply rank_lt_iff in G. congruence.
  - intros [E|H].
    + subst. destruct (rank_lt b b) eqn:E; [|reflexivity].
      apply rank_lt_iff in E. exfalso. exact (Rank_lt_irrefl _ E).
    + apply rank_lt_asym, rank_lt_iff, H.
Qed.

Lemma rank_not_lt_trans a b c :
  rank_lt b a = false -> rank_lt c b = false -> rank_lt c a = false.
Proof.
  rewrite !rank_not_lt_iff.
  intros [E|H] [F|G]; subst; auto.
  right. eapply Rank_lt_trans; eassumption.
Qed.

Lemma Rank_lt_unit_before a b :
  Rank_lt (unit_rank a) (unit_rank b) <-> unit_before a b.
Proof.
  unfold unit_rank, unit_before, in_stock, Rank_lt.
  destruct (String.eqb_spec (availability a) "in_stock") as [Ha|Ha];
    destruct (String.eqb_spec (availability b) "in_stock") as [Hb|Hb];
    split; intros H.
  - destruct H as [H|[_ H]]; [lia|]. right. tauto.
  - destruct H as [[_ H]|[_ H]]; [contradiction|]. right. tauto.
  - left. tauto.
  - left. lia.
  - destruct H as [H|[H _]]; [lia|discriminate].
  - destruct H as [[H _]|[H _]]; [contradiction|]. tauto.
  - destruct H as [H|[_ H]]; [lia|]. right. tauto.
  - destruct H as [[H _]|[_ H]]; [contradiction|]. right. tauto.
Qed.

(** *** The dictionary built by [setdefault] *)

Lemma find_app_split {A} (f : A -> bool) l1 l2 :
  find f (l1 ++ l2)
  = match find f l1 with Some y => Some y | None => find f l2 end.
Proof.
  induction l1 as [|x l1 IH]; cbn; [reflexivity|].
  destruct (f x); [reflexivity | exact IH].
Qed.

Lemma has_key_iff k d : has_key k d = true <-> In k (map fst d).
Proof.
  unfold has_key. rewrite existsb_exists, in_map_iff. split.
  - intros [kv [Hin He]]. apply String.eqb_eq in He. eauto.
  - intros [kv [He Hin]]. exists kv. split; [exact Hin|].
    apply String.eqb_eq. exact He.
Qed.

Lemma units_of_snoc l x :
  units_of (l ++ [x]) = setdefault (unit_ref x) x (units_of l).
Proof. unfold units_of. rewrite fold_left_app. reflexivity. Qed.

(** The keys are distinct, every key is the unit of a candidate and is bound
    to the first candidate of that unit, and every candidate's unit is a
    key. *)
Lemma units_of_inv l :
  NoDup (map fst (units_of l))
  /\ (forall k v, In (k, v) (units_of l) ->
                  find (fun y => String.eqb (unit_ref y) k) l = Some v)
  /\ (forall x, In x l -> has_key (unit_ref x) (units_of l) = true).
Proof.
  induction l as [|x l [IHn [IHf IHk]]] using rev_ind.
  - cbn. repeat split; [constructor | contradiction | contradiction].
  - rewrite units_of_snoc. unfold setdefault.
    destruct (has_key (unit_ref x) (units_of l)) eqn:Ek.
    + repeat split; [exact IHn | |].
      * intros k v Hin. rewrite find_app_split, (IHf k v Hin). reflexivity.
      * intros y Hy. apply in_app_or in Hy as [Hy|[Hy|[]]]; [auto|].
        subst. exact Ek.
    + assert (Hnk : ~ In (unit_ref x) (map fst (units_of l))).
      { rewrite <- has_key_iff. congruence. }
      repeat split.
      * rewrite map_app. cbn.
        apply NoDup_app; [exact IHn | repeat constructor; auto | ].
        intros k Hk [Hk'|[]]. subst. contradiction.
      * intros k v Hin. apply in_app_or in Hin as [Hin|[Hin|[]]].
        { rewrite find_app_split, (IHf k v Hin). reflexivity. }
        inversion Hin; subst k v.
        rewrite find_app_split.
        destruct (find _ l) as [y|] eqn:Ef.
        { apply find_some in Ef as [Hy Hey]. apply String.eqb_eq in Hey.
          specialize (IHk y Hy). rewrite Hey in IHk. congruence. }
        cbn. rewrite String.eqb_refl. reflexivity.
      * intros y Hy. rewrite has_key_iff, map_app, in_app_iff.
        apply in_app_or in Hy as [Hy|[Hy|[]]].
        { left. apply has_key_iff. auto. }
        subst. right. left. reflexivity.
Qed.

Lemma units_of_key_is_unit l k v :
  In (k, v) (units_of l) -> unit_ref v = k.
Proof.
  intros H. apply (proj1 (proj2 (units_of_inv l))) in H.
  apply find_some in H as [_ H]. apply String.eqb_eq. exact H.
Qed.

(** *** Sorted lists *)

Lemma StronglySorted_map {A B} (f : A -> B) (R : B -> B -> Prop) l :
  StronglySorted (fun a b => R (f a) (f b)) l -> StronglySorted R (map f l).
Proof.
  induction 1 as [|a l Hs IH Hall]; cbn; constructor; [exact IH|].
  rewrite Forall_forall in *. intros b Hb.
  apply in_map_iff in Hb as [x [<- Hx]]. auto.
Qed.

Lemma StronglySorted_before {A} (R : A -> A -> Prop) l1 a l2 b l3 :
  StronglySorted R (l1 ++ a :: l2 ++ b :: l3) -> R a b.
Proof.
  induction l1 as [|x l1 IH]; cbn; intros H.
  - apply StronglySorted_inv in H as [_ H].
    rewrite Forall_forall in H. apply H.
    apply in_or_app. right. left. reflexivity.
  - apply StronglySorted_inv in H as [H _]. auto.
Qed.

(** A weakly sorted list of units with distinct unit references is strictly
    sorted in the order of the specification. *)
Lemma ordered_units_strict l :
  StronglySorted (not_after unit_rank rank_lt) l ->
  NoDup (map unit_ref l) ->
  StronglySorted unit_before l.
Proof.
  induction 1 as [|a l Hs IH Hall]; cbn; intros Hnd; constructor.
  - apply IH. inversion Hnd; assumption.
  - inversion Hnd as [|? ? Hnotin _]; subst.
    rewrite Forall_forall in *. intros b Hb.
    specialize (Hall b Hb). unfold not_after in Hall.
    apply rank_not_lt_iff in Hall as [E|H].
    + exfalso. apply Hnotin. apply in_map_iff. exists b. split; [|exact Hb].
      unfold unit_rank in E. congruence.
    + apply Rank_lt_unit_before. exact H.
Qed.

(** C6.  The result of [unique_units] has no two rows of the same unit;
    each row is the first candidate of its unit; every unit of the
    candidates is there; the rows are in the order of the composite key (in
    stock first, then delivery, then unit reference, both lexical); and so
    no row that is not in stock stands before one that is. *)
Theorem unique_units_dedup_and_order (cands : list entry) :
  NoDup (map unit_ref (unique_units cands))
  /\ (forall u, In u (unique_units cands) ->
        find (fun x => String.eqb (unit_ref x) (unit_ref u)) cands = Some u)
  /\ (forall x, In x cands ->
        exists u, In u (unique_units cands) /\ unit_ref u = unit_ref x)
  /\ StronglySorted unit_before (unique_units cands)
  /\ (forall l1 a l2 b l3,
        unique_units cands = l1 ++ a :: l2 ++ b :: l3 ->
        in_stock b -> in_stock a).
Proof.
  destruct (units_of_inv cands) as [Hn [Hf Hk]].
  set (key := fun kv : string * entry => unit_rank (snd kv)).
  pose proof (sorted_perm key rank_lt (units_of cands)) as Hperm.
  assert (Hkeys : forall d, (forall k v, In (k, v) d -> unit_ref v = k) ->
                            map unit_ref (map snd d) = map fst d).
  { induction d as [|[k v] d IH]; cbn; intros H; [reflexivity|].
    rewrite (H k v), IH; auto. }
  assert (Hsu : forall k v, In (k, v) (sorted key rank_lt (units_of cands)) ->
                            In (k, v) (units_of cands)).
  { intros k v H. eapply Permutation_in; [symmetry; exact Hperm | exact H]. }
  assert (Hnd : NoDup (map unit_ref (unique_units cands))).
  { unfold unique_units. fold key. rewrite Hkeys.
    - eapply Permutation_NoDup; [apply Permutation_map; exact Hperm | exact Hn].
    - intros k v H. eapply units_of_key_is_unit. apply Hsu. exact H. }
  assert (Hsorted : StronglySorted unit_before (unique_units cands)).
  { apply ordered_units_strict; [|exact Hnd].
    unfold unique_units. fold key. apply StronglySorted_map.
    apply (sorted_ordered key rank_lt rank_lt_asym).
    intros a b c. apply rank_not_lt_trans. }
  split; [exact Hnd|]. split; [|split; [|split; [exact Hsorted|]]].
  - intros u Hu. unfold unique_units in Hu. fold key in Hu.
    apply in_map_iff in Hu as [[k v] [<- Hin]]. cbn.
    apply Hsu in Hin. rewrite (units_of_key_is_unit _ _ _ Hin). auto.
  - intros x Hx. specialize (Hk x Hx).
    apply has_key_iff, in_map_iff in Hk as [[k v] [Hkx Hin]]. cbn in Hkx.
    exists v. split.
    + unfold unique_units. fold key. apply in_map_iff. exists (k, v).
      split; [reflexivity|]. eapply Permutation_in; eassumption.
    + rewrite (units_of_key_is_unit _ _ _ Hin). exact Hkx.
  - intros l1 a l2 b l3 E Hb. rewrite E in Hsorted.
    apply StronglySorted_before in Hsorted.
    destruct Hsorted as [[Ha _]|[Hiff _]]; tauto.
Qed.

Lemma unique_units_dedup_and_order_witness :
  unique_units Sample.catalog
  = [Sample.so455_12_es; Sample.p43_131_es; Sample.p43_126_es]
  /\ In Sample.p43_126_es (unique_units Sample.catalog)
  /\ find (fun x => String.eqb (unit_ref x) "126") Sample.catalog
     = Some Sample.p43_126_es
  /\ (in_stock Sample.p43_131_es -> in_stock Sample.so455_12_es).
Proof.
  assert (E : unique_units Sample.catalog
              = [Sample.so455_12_es; Sample.p43_131_es; Sample.p43_126_es])
    by (vm_compute; reflexivity).
  assert (I : In Sample.p43_126_es (unique_units Sample.catalog))
    by (rewrite E; cbn; tauto).
  destruct (unique_units_dedup_and_order Sample.catalog)
    as [_ [Hfirst [_ [_ Horder]]]].
  split; [exact E|]. split; [exact I|]. split.
  - exact (Hfirst Sample.p43_126_es I).
  - exact (Horder [] Sample.so455_12_es [] Sample.p43_131_es
                  [Sample.p43_126_es] E).
Defined.

Lemma getitem_of_pair d k v :
  NoDup (map fst d) -> In (k, v) d -> getitem d k = Some v.
Proof.
  unfold getitem. induction d as [|[k' v'] d IH]; cbn; intros Hn Hin.
  - contradiction.
  - inversion Hn as [|? ? Hnotin Hn']; subst.
    destruct Hin as [E|Hin].
    + inversion E; subst. rewrite String.eqb_refl. reflexivity.
    + destruct (String.eqb_spec k' k) as [->|_]; [|auto].
      exfalso. apply Hnotin. apply in_map_iff. exists (k, v). auto.
Qed.

(** The rows of [unique_units] are the values [units[k]] of the dictionary,
    read at its keys put in order. *)
Lemma unique_units_reads_dict (cands : list entry) :
  let units := units_of cands in
  let ordered := sorted (fun kv => unit_rank (snd kv)) rank_lt units in
  Permutation (map fst units) (map fst ordered)
  /\ map (getitem units) (map fst ordered) = map Some (unique_units cands).
Proof.
  cbn zeta. split.
  - apply Permutation_map, sorted_perm.
  - unfold unique_units.
    pose proof (sorted_perm (fun kv => unit_rank (snd kv)) rank_lt
                  (units_of cands)) as Hperm.
    assert (Hin : forall kv, In kv (sorted (fun kv => unit_rank (snd kv))
                                      rank_lt (units_of cands)) ->
                             In kv (units_of cands)).
    { intros kv H. eapply Permutation_in; [symmetry; exact Hperm | exact H]. }
    clear Hperm.
    induction (sorted (fun kv => unit_rank (snd kv)) rank_lt (units_of cands))
      as [|[k v] l IH]; cbn; [reflexivity|].
    assert (Hkv : getitem (units_of cands) k = Some v).
    { apply getitem_of_pair; [apply units_of_inv | apply Hin; left; reflexivity]. }
    rewrite Hkv, IH; [reflexivity|].
    intros kv H. apply Hin. right. exact H.
Qed.

(** ** The unit reference pattern *)

Section StringFacts.
Local Open Scope string_scope.

Lemma string_length_app a b :
  String.length (a ++ b) = String.length a + String.length b.
Proof. induction a as [|c a IH]; cbn; [reflexivity | rewrite IH; reflexivity]. Qed.

Lemma string_app_assoc a b c : (a ++ b) ++ c = a ++ (b ++ c).
Proof. induction a as [|x a IH]; cbn; [reflexivity | rewrite IH; reflexivity]. Qed.

Lemma substring_whole_prefix a b : substring 0 (String.length a) (a ++ b) = a.
Proof.
  induction a as [|c a IH]; cbn.
  - destruct b; reflexivity.
  - rewrite IH. reflexivity.
Qed.

Lemma consumed_app a b : consumed (a ++ b) b = a.
Proof.
  unfold consumed. rewrite string_length_app, Nat.add_sub.
  apply substring_whole_prefix.
Qed.

(** A string of at least [n] characters is its first [n] characters
    followed by the rest. *)
Lemma string_take_drop n s :
  n <= String.length s ->
  exists more, s = substring 0 n s ++ more
               /\ String.length (substring 0 n s) = n.
Proof.
  revert s. induction n as [|n IH]; intros s Hn.
  - exists s. destruct s; cbn; split; reflexivity.
  - destruct s as [|c s]; cbn in Hn; [lia|].
    destruct (IH s) as [more [E L]]; [lia|].
    exists more. cbn. rewrite L. split; [|reflexivity].
    rewrite <- E. reflexivity.
Qed.

Lemma sall_substring p n s :
  sall p s = true -> sall p (substring 0 n s) = true.
Proof.
  revert s. induction n as [|n IH]; intros [|c s] H; cbn; try reflexivity.
  cbn in H. apply andb_true_iff in H as [Hc Hs].
  rewrite Hc, IH; auto.
Qed.
End StringFacts.

Lemma digit_not_space c : is_digit c = true -> is_space c = false.
Proof.
  destruct c as [[] [] [] [] [] [] [] []]; vm_compute; congruence.
Qed.

Lemma digit_not_dot c : is_digit c = true -> c <> "."%char.
Proof. intros H ->. vm_compute in H. discriminate. Qed.

Lemma space_not_dot c : is_space c = true -> c <> "."%char.
Proof. intros H ->. vm_compute in H. discriminate. Qed.

Section MatcherFacts.
Local Open Scope string_scope.
Context {A : Type}.

(** *** What a successful match went through *)

Lemma star_cont p s (k : string -> option A) r :
  star p s k = Some r -> exists s', k s' = Some r.
Proof.
  induction s as [|c s IH]; cbn; intros H; [eauto|].
  destruct (p c); [|eauto].
  destruct (star p s k) eqn:E; cbn in H; [|eauto].
  inversion H; subst. auto.
Qed.

Lemma rep_cont p hi : forall lo s (k : string -> option A) r,
  rep p lo hi s k = Some r ->
  exists pre suf, s = pre ++ suf /\ lo <= String.length pre /\ k suf = Some r.
Proof.
  assert (Hstop : forall lo s (k : string -> option A) r,
    match lo with O => k s | S _ => None end = Some r ->
    exists pre suf, s = pre ++ suf /\ lo <= String.length pre /\ k suf = Some r).
  { intros [|lo] s k r H; [|discriminate].
    exists "", s. cbn. auto. }
  induction hi as [|hi IH]; intros lo s k r H; cbn in H; [auto|].
  destruct s as [|c s]; [auto|].
  destruct (p c); [|auto].
  destruct (rep p (Nat.pred lo) hi s k) eqn:E; cbn in H; [|auto].
  inversion H; subst.
  destruct (IH _ _ _ _ E) as [pre [suf [-> [Hlo Hk]]]].
  exists (String c pre), suf. cbn. repeat split; [lia | exact Hk].
Qed.

Lemma rmatch_cont r : forall s g (k : string -> groups -> option A) res,
  rmatch r s g k = Some res -> exists s' g', k s' g' = Some res.
Proof.
  induction r as [|c|r1 IH1 r2 IH2|r1 IH1 r2 IH2|r1 IH1|p|p lo hi|n r1 IH1];
    intros s g k res H; cbn in H.
  - eauto.
  - destruct s as [|x s]; [discriminate|].
    destruct (Ascii.eqb _ _); [eauto | discriminate].
  - apply IH1 in H as [s1 [g1 H]]. eauto.
  - destruct (rmatch r1 s g k) eqn:E; cbn in H; [|eauto].
    inversion H; subst. eauto.
  - destruct (rmatch r1 s g k) eqn:E; cbn in H; [|eauto].
    inversion H; subst. eauto.
  - apply star_cont in H as [s' H]. eauto.
  - apply rep_cont in H as [pre [suf [_ [_ H]]]]. eauto.
  - apply IH1 in H as [s1 [g1 H]]. eauto.
Qed.

(** *** What a greedy match takes first *)

Lemma star_skip p ws s (k : string -> option A) r :
  sall p ws = true -> star p s k = Some r -> star p (ws ++ s) k = Some r.
Proof.
  induction ws as [|c ws IH]; cbn; intros Hp H; [exact H|].
  apply andb_true_iff in Hp as [Hc Hws].
  rewrite Hc, (IH Hws H). reflexivity.
Qed.

Lemma rep_takes_all p hi : forall lo pre suf (k : string -> option A) r,
  sall p pre = true -> String.length pre = hi -> lo <= hi ->
  k suf = Some r ->
  rep p lo hi (pre ++ suf) k = Some r.
Proof.
  induction hi as [|hi IH]; intros lo pre suf k r Hp Hl Hlo Hk.
  - destruct pre; [|discriminate]. cbn.
    destruct lo; [exact Hk | lia].
  - destruct pre as [|c pre]; [discriminate|]. cbn in *.
    apply andb_true_iff in Hp as [Hc Hpre]. rewrite Hc.
    rewrite (IH (Nat.pred lo) pre suf k r); auto; lia.
Qed.

End MatcherFacts.

Lemma search_found r : forall s m,
  search r s = Some m -> exists s', match_here r s' = Some m.
Proof.
  induction s as [|c s IH]; intros m H; cbn in H.
  - destruct (match_here r "") eqn:E; [|discriminate].
    inversion H; subst. eauto.
  - destruct (match_here r (String c s)) eqn:E.
    + inversion H; subst. eauto.
    + auto.
Qed.

(** In a pattern [r1 p* (q{lo+1,hi})], the second group of a match is a
    run of at least one character. *)
Lemma second_group_nonempty r1 p q lo hi s m :
  match_here (Seq r1 (Seq (Star p) (Group 2 (Rep q (S lo) hi)))) s = Some m ->
  exists u, m 2 = Some u /\ u <> "".
Proof.
  unfold match_here. cbn [rmatch]. intros E.
  apply rmatch_cont in E as [s1 [g1 E]].
  apply star_cont in E as [s2 E].
  apply rep_cont in E as [pre [suf [-> [Hlen E]]]].
  inversion E; subst m. rewrite consumed_app.
  exists pre. split; [reflexivity|].
  destruct pre; [cbn in Hlen; lia | discriminate].
Qed.

Lemma detect_unit_ref_nonempty query u :
  detect_unit_ref query = Some u -> u <> "".
Proof.
  unfold detect_unit_ref.
  destruct (search UNIT_REF_REGEX query) as [m|] eqn:E; [|discriminate].
  intros Hm. apply search_found in E as [s E].
  unfold UNIT_REF_REGEX, ref_digits in E.
  apply second_group_nonempty in E as [u' [E Hu]]. congruence.
Qed.

Lemma detect_unit_ref_truthy query u :
  detect_unit_ref query = Some u -> truthy (Some u) = true.
Proof.
  intros H. apply detect_unit_ref_nonempty in H.
  cbn. destruct (String.eqb_spec u ""); [contradiction | reflexivity].
Qed.

(** *** The match at a marker followed by a long digit run *)

Lemma space_or_digit_lower_not_dot x :
  (is_space x || is_digit x)%bool = true ->
  Ascii.eqb (lower_char x) "." = false.
Proof.
  destruct x as [[] [] [] [] [] [] [] []]; vm_compute; congruence.
Qed.

Section MarkerMatch.
Local Open Scope string_scope.

(** After blanks, [\d{1,5}] takes the first five digits of a longer run
    and the match ends there. *)
Lemma ref_digits_takes_five g ws ds rest :
  sall is_space ws = true -> sall is_digit ds = true ->
  5 < String.length ds ->
  rmatch ref_digits (ws ++ ds ++ rest) g (fun _ m => Some m)
  = Some (set_group 2 (substring 0 5 ds) g).
Proof.
  intros Hws Hds Hlen. unfold ref_digits. cbn [rmatch].
  apply star_skip; [exact Hws|].
  destruct (string_take_drop 5 ds) as [more [E L]]; [lia|].
  pose proof (sall_substring is_digit 5 ds Hds) as H5.
  remember (substring 0 5 ds) as d5 eqn:Ed5.
  rewrite E, string_app_assoc.
  destruct d5 as [|c d5]; [discriminate|].
  cbn [append star]. cbn in H5. apply andb_true_iff in H5 as [Hc H5].
  rewrite (digit_not_space c Hc).
  change (String c (d5 ++ more ++ rest)) with (String c d5 ++ (more ++ rest)).
  apply rep_takes_all; [cbn; rewrite Hc; exact H5 | exact L | lia |].
  rewrite consumed_app. reflexivity.
Qed.

Ltac split_word H mk :=
  unfold lower in H;
  repeat (destruct mk as [|? mk]; cbn [smap] in H; try discriminate H);
  repeat match goal with
         | E : String ?a ?s = String ?b ?t |- _ =>
             assert (a = b) by congruence;
             assert (s = t) by congruence;
             clear E
         | E : EmptyString = EmptyString |- _ => clear E
         end.

(** A marker word, in any letter case, is matched by the first group when
    the rest of the pattern succeeds after it. *)
Lemma marker_matches {A} mk tail g (k : string -> groups -> option A) r :
  In (lower mk) unit_markers ->
  (forall x t, tail = String x t -> Ascii.eqb (lower_char x) "." = false) ->
  k tail (set_group 1 (consumed (mk ++ tail) tail) g) = Some r ->
  rmatch (Group 1 marker_alts) (mk ++ tail) g k = Some r.
Proof.
  intros Hmk Htail Hk. unfold unit_markers in Hmk. cbn [In] in Hmk.
  unfold marker_alts.
  destruct Hmk as [H|[H|[H|[H|[H|[H|[H|[]]]]]]]]; symmetry in H;
    split_word H mk; cbn [append] in *; cbn [rmatch lit];
    repeat match goal with
           | Hc : lower_char _ = _ |- _ => rewrite Hc; clear Hc
           end;
    cbn -[consumed lower_char];
    try (rewrite Hk; reflexivity).
  (* the bare "n": the optional dot finds none *)
  destruct tail as [|x t]; cbn -[consumed lower_char].
  - exact Hk.
  - change (lower_char ".") with "."%char.
    rewrite (Htail x t eq_refl). cbn -[consumed]. exact Hk.
Qed.

Lemma search_here r s m : match_here r s = Some m -> search r s = Some m.
Proof. destruct s; cbn; intros ->; reflexivity. Qed.

Lemma search_skip r pre s :
  (forall p1 p2, pre = p1 ++ p2 -> p2 <> "" -> match_here r (p2 ++ s) = None) ->
  search r (pre ++ s) = search r s.
Proof.
  induction pre as [|c pre IH]; intros H; [reflexivity|].
  assert (H0 : match_here r (String c pre ++ s) = None)
    by (apply (H "" (String c pre)); [reflexivity | discriminate]).
  cbn [append search] in *. rewrite H0.
  apply IH. intros p1 p2 E Hp2.
  apply (H (String c p1) p2); [cbn; rewrite E; reflexivity | exact Hp2].
Qed.

End MarkerMatch.

(** C9 fails as stated: this query contains the marker "#" followed by the
    six digits "123456", and the unit reference returned is "1", taken at
    the earlier marker. *)
Lemma detect_unit_ref_earlier_marker_wins :
  "#1 #123456" = ("#1 " ++ "#" ++ "123456")%string
  /\ detect_unit_ref "#1 #123456" = Some "1"
  /\ detect_unit_ref "#1 #123456" <> Some "12345".
Proof.
  repeat split. vm_compute. discriminate.
Qed.

(** C9, as the code has it.  When the leftmost match of the pattern starts
    at a marker word (in any letter case) that is followed, after optional
    blanks, by a run of more than five digits, the match is not rejected and
    the unit reference is exactly the first five digits of the run.  That no
    match starts earlier is the last hypothesis: the pattern matches at no
    position inside [pre]. *)
Theorem detect_unit_ref_takes_first_five (pre mk ws ds rest : string) :
  In (lower mk) unit_markers ->
  sall is_space ws = true ->
  sall is_digit ds = true ->
  5 < String.length ds ->
  (forall p1 p2 : string,
      pre = (p1 ++ p2)%string -> p2 <> "" ->
      match_here UNIT_REF_REGEX (p2 ++ mk ++ ws ++ ds ++ rest)%string = None) ->
  detect_unit_ref (pre ++ mk ++ ws ++ ds ++ rest)%string
  = Some (substring 0 5 ds).
Proof.
  intros Hmk Hws Hds Hlen Hpre. unfold detect_unit_ref.
  rewrite (search_skip _ _ _ Hpre).
  rewrite (search_here _ _
             (set_group 2 (substring 0 5 ds)
                (set_group 1
                   (consumed (mk ++ ws ++ ds ++ rest)%string
                             (ws ++ ds ++ rest)%string)
                   no_groups))).
  - reflexivity.
  - unfold match_here, UNIT_REF_REGEX.
    refine (marker_matches mk (ws ++ ds ++ rest)%string no_groups
              (fun s1 g1 => rmatch ref_digits s1 g1 (fun _ g => Some g))
              _ Hmk _ _).
    + intros x t E. apply space_or_digit_lower_not_dot.
      destruct ws as [|w ws].
      * destruct ds as [|d ds]; [cbn in Hlen; lia|].
        cbn in E, Hds. inversion E; subst.
        apply andb_true_iff in Hds as [-> _]. apply orb_true_r.
      * cbn in E, Hws. inversion E; subst.
        apply andb_true_iff in Hws as [-> _]. reflexivity.
    + apply ref_digits_takes_five; assumption.
Qed.

Lemma detect_unit_ref_takes_first_five_witness :
  In (lower "Unit") unit_markers
  /\ sall is_space " " = true
  /\ sall is_digit "123456" = true
  /\ 5 < String.length "123456"
  /\ detect_unit_ref "SO455 Unit 123456 en" = Some "12345".
Proof.
  assert (H1 : In (lower "Unit") unit_markers) by (vm_compute; tauto).
  assert (H2 : sall is_space " " = true) by reflexivity.
  assert (H3 : sall is_digit "123456" = true) by reflexivity.
  assert (H4 : 5 < String.length "123456") by (cbn; lia).
  repeat (split; [assumption|]).
  apply (detect_unit_ref_takes_first_five "SO455 " "Unit" " " "123456" " en"
           H1 H2 H3 H4).
  intros p1 p2 E Hp2.
  repeat (destruct p1 as [|? p1]; cbn in E;
          [subst p2; vm_compute; reflexivity
          | injection E as _ E]).
  destruct p1; cbn in E; [|discriminate].
  subst p2. contradiction.
Defined.

(** ** Candidate resolution *)

Lemma below_threshold_false_iff (s : Q) :
  below_threshold s = false <-> (70 <= s)%Q.
Proof.
  unfold below_threshold. rewrite negb_false_iff. apply Qle_bool_iff.
Qed.


Section ResolverFacts.

Variable CATALOG : list entry.
Variable extractOne : string -> list string -> option (string * Q * nat).





Lemma mapping_length : List.length (mapping CATALOG) = List.length (choices CATALOG).
Proof.
  unfold mapping, choices. induction CATALOG as [|x l IH]; cbn; [reflexivity|].
  rewrite !length_app, length_map, IH. reflexivity.
Qed.

(** No [IndexError] when the scorer returns an index into [choices]. *)
Lemma best_model_match_returns query :
  (forall qn k sc i,
      extractOne qn (choices CATALOG) = Some (k, sc, i) ->
      i < List.length (choices CATALOG)) ->
  exists r, best_model_match CATALOG extractOne query = Ok r.
Proof.
  intros Hidx. unfold best_model_match.
  destruct (extractOne _ _) as [[[k sc] i]|] eqn:E; [|eauto].
  apply Hidx in E. rewrite <- mapping_length in E.
  apply nth_error_Some in E.
  destruct (nth_error (mapping CATALOG) i); [eauto | contradiction].
Qed.

(** The resolver after an accepted match. *)
Lemma candidates_accepted query base s :
  best_model_match CATALOG extractOne query = Ok (Some base, s) ->
  (70 <= s)%Q ->
  candidates_for_query CATALOG extractOne query
  = Ok (match detect_unit_ref query with
        | Some u =>
            if is_empty (filter (fun x => String.eqb (unit_ref x) u)
                                (family CATALOG base))
            then family CATALOG base
            else filter (fun x => String.eqb (unit_ref x) u)
                        (family CATALOG base)
        | None => family CATALOG base
        end, s).
Proof.
  intros Hb Hs. unfold candidates_for_query. rewrite Hb. cbn [bind].
  apply below_threshold_false_iff in Hs. rewrite Hs.
  destruct (detect_unit_ref query) as [u|] eqn:Eu; [|reflexivity].
  rewrite (detect_unit_ref_truthy _ _ Eu).
  destruct (filter _ (family CATALOG base)); reflexivity.
Qed.


(** C7.  After an accepted match, for a query in which a unit reference is
    detected: when no row of the family has that unit the whole family is
    returned (no error, no empty result), and when some row has it the rows
    of that unit are returned. *)
Theorem unit_narrowing_recovers_by_widening (query : string) base s u :
  best_model_match CATALOG extractOne query = Ok (Some base, s) ->
  (70 <= s)%Q ->
  detect_unit_ref query = Some u ->
  (filter (fun x => String.eqb (unit_ref x) u) (family CATALOG base) = [] ->
   candidates_for_query CATALOG extractOne query = Ok (family CATALOG base, s))
  /\ (filter (fun x => String.eqb (unit_ref x) u) (family CATALOG base) <> [] ->
      candidates_for_query CATALOG extractOne query
      = Ok (filter (fun x => String.eqb (unit_ref x) u) (family CATALOG base), s)).
Proof.
  intros Hb Hs Hu. rewrite (candidates_accepted _ _ _ Hb Hs), Hu.
  destruct (filter _ (family CATALOG base)); cbn [is_empty]; split; intros H;
    try reflexivity; try discriminate; contradiction.
Qed.

End ResolverFacts.


Lemma unit_narrowing_recovers_by_widening_witness :
  best_model_match Sample.catalog Sample.prefix_scorer "SO455 #49"
  = Ok (Some Sample.so455_12_es, 100%Q)
  /\ (70 <= 100)%Q
  /\ detect_unit_ref "SO455 #49" = Some "49"
  /\ filter (fun x => String.eqb (unit_ref x) "49")
            (family Sample.catalog Sample.so455_12_es) = []
  /\ candidates_for_query Sample.catalog Sample.prefix_scorer "SO455 #49"
     = Ok ([Sample.so455_12_es], 100%Q).
Proof.
  assert (B : best_model_match Sample.catalog Sample.prefix_scorer "SO455 #49"
              = Ok (Some Sample.so455_12_es, 100%Q)) by (vm_compute; reflexivity).
  assert (L : (70 <= 100)%Q) by (unfold Qle; cbn; lia).
  assert (U : detect_unit_ref "SO455 #49" = Some "49") by (vm_compute; reflexivity).
  assert (N : filter (fun x => String.eqb (unit_ref x) "49")
                     (family Sample.catalog Sample.so455_12_es) = [])
    by (vm_compute; reflexivity).
  repeat (split; [assumption|]).
  exact (proj1 (unit_narrowing_recovers_by_widening
                  Sample.catalog Sample.prefix_scorer "SO455 #49"
                  Sample.so455_12_es 100%Q "49" B L U) N).
Defined.

(** When some row has the detected unit, the family is narrowed to it. *)
Example unit_narrowing_keeps_matching_rows :
  candidates_for_query Sample.catalog Sample.prefix_scorer "pardo p43 #131"
  = Ok ([Sample.p43_131_es], 100%Q).
Proof. vm_compute. reflexivity. Qed.

(** ** run_flow on a session that is already open *)


Lemma py_or_none b : py_or None b = b.
Proof. reflexivity. Qed.



Section DialogFacts.

Variable CATALOG : list entry.
Variable extractOne : string -> list string -> option (string * Q * nat).


(** A query without candidates clears the session. *)
Lemma run_flow_without_candidates_resets (query : string) (ud : user_data)
      (score : Q) :
  candidates_for_query CATALOG extractOne query = Ok ([], score) ->
  run_flow CATALOG extractOne query ud = Ok (None, [NoCardFound]).
Proof.
  intros Hc. unfold run_flow. rewrite Hc. reflexivity.
Qed.

End DialogFacts.


(** The same query on a fresh session asks for the language. *)
Example run_flow_fresh_session_asks_lang :
  run_flow Sample.catalog Sample.prefix_scorer "so455" None
  = Ok (Some (mkFlow (Some "so455") [Sample.so455_12_es] (Some "12")
                     None None (Some StLang)),
        [AskLang]).
Proof. vm_compute. reflexivity. Qed.

(* ================================================================== *)
(** * Further properties of the code *)
(* ================================================================== *)

(** ** The shape of a normalized text *)

Lemma space_is_space : is_space " " = true.
Proof. reflexivity. Qed.

Lemma plain_not_space c : plain_char c = true -> is_space c = false.
Proof.
  destruct c as [[] [] [] [] [] [] [] []]; vm_compute; congruence.
Qed.

Lemma plain_keep c : plain_char c = true -> keep_char c = true.
Proof.
  unfold plain_char, keep_char. intros H.
  apply orb_true_iff in H as [H|H].
  - apply orb_true_iff in H as [H|H]; rewrite H; cbn;
      rewrite ?orb_true_r; reflexivity.
  - rewrite H. apply orb_true_r.
Qed.

Lemma keep_not_space_plain c :
  keep_char c = true -> is_space c = false -> plain_char c = true.
Proof.
  unfold keep_char, plain_char. intros H Hs. rewrite Hs in H.
  rewrite orb_false_r in H. exact H.
Qed.

Lemma plain_not_blank c : plain_char c = true -> Ascii.eqb c " " = false.
Proof.
  intros H. destruct (Ascii.eqb_spec c " ") as [->|]; [|reflexivity].
  vm_compute in H. discriminate.
Qed.

Lemma sall_lstrip p s : sall p s = true -> sall p (lstrip s) = true.
Proof.
  induction s as [|c s IH]; cbn; [reflexivity|]. intros H.
  destruct (is_space c); [|exact H].
  apply andb_true_iff in H as [_ H]. auto.
Qed.

Lemma sall_rstrip p s : sall p s = true -> sall p (rstrip s) = true.
Proof.
  induction s as [|c s IH]; cbn; [reflexivity|]. intros H.
  apply andb_true_iff in H as [Hc H]. specialize (IH H).
  destruct (rstrip s) as [|d r].
  - destruct (is_space c); cbn; [reflexivity | rewrite Hc; reflexivity].
  - cbn in *. rewrite Hc. exact IH.
Qed.

Lemma sall_lower s :
  sall (fun c => Ascii.eqb (lower_char c) c) (lower s) = true.
Proof.
  unfold lower. induction s as [|c s IH]; cbn; [reflexivity|].
  rewrite lower_char_idempotent, Ascii.eqb_refl. exact IH.
Qed.

(** Replacing the noise and collapsing the blanks of a lower-case text
    gives a tidy text. *)
Lemma collapse_sub_noise_tidy t : forall in_run,
  sall (fun c => Ascii.eqb (lower_char c) c) t = true ->
  tidy in_run (collapse_ws in_run (sub_noise t)) = true.
Proof.
  unfold sub_noise.
  induction t as [|c t IH]; intros in_run H; cbn; [reflexivity|].
  cbn in H. apply andb_true_iff in H as [Hc H].
  destruct (keep_char c) eqn:Ek.
  - destruct (is_space c) eqn:Es.
    + destruct in_run; [apply IH; exact H|].
      cbn. apply IH. exact H.
    + cbn. rewrite (keep_not_space_plain c Ek Es), Hc.
      rewrite (plain_not_blank c (keep_not_space_plain c Ek Es)).
      cbn. apply IH. exact H.
  - rewrite space_is_space.
    destruct in_run; [apply IH; exact H|].
    cbn. apply IH. exact H.
Qed.

Lemma normalize_tidy text : tidy false (normalize text) = true.
Proof.
  unfold normalize. apply collapse_sub_noise_tidy.
  unfold strip. apply sall_rstrip, sall_lstrip, sall_lower.
Qed.

Lemma tidy_norm_chars s : forall b, tidy b s = true -> sall norm_char s = true.
Proof.
  induction s as [|c s IH]; intros b H; cbn in *; [reflexivity|].
  unfold norm_char at 1.
  destruct (Ascii.eqb c " ").
  - apply andb_true_iff in H as [_ H]. cbn. eauto.
  - apply andb_true_iff in H as [Hc H]. rewrite Hc. cbn. eauto.
Qed.

Lemma tidy_no_double_space s : forall b a z,
  tidy b s = true -> s <> (a ++ "  " ++ z)%string.
Proof.
  induction s as [|c s IH]; intros b a z H E.
  - destruct a; discriminate.
  - destruct a as [|x a]; cbn in E.
    + inversion E; subst. cbn in H. rewrite andb_false_r in H. discriminate.
    + inversion E; subst. cbn in H.
      destruct (Ascii.eqb x " ").
      * apply andb_true_iff in H as [_ H]. exact (IH _ _ _ H eq_refl).
      * apply andb_true_iff in H as [_ H]. exact (IH _ _ _ H eq_refl).
Qed.

(** X1.  Every character of a normalized text is a space, or a word
    character, [#] or [.] that is its own lower case: no punctuation, no
    upper-case letter and no whitespace other than the space is left. *)
Theorem normalize_alphabet (text : string) :
  sall norm_char (normalize text) = true.
Proof. exact (tidy_norm_chars _ _ (normalize_tidy text)). Qed.

(** X2.  A normalized text never holds two spaces in a row. *)
Theorem normalize_no_double_space (text a z : string) :
  normalize text <> (a ++ "  " ++ z)%string.
Proof. exact (tidy_no_double_space _ _ a z (normalize_tidy text)). Qed.

(** ** Normalizing twice *)

Lemma blank_is_space c : Ascii.eqb c " " = true -> is_space c = true.
Proof. intros H. apply Ascii.eqb_eq in H. subst. reflexivity. Qed.

Lemma tidy_weaken s : tidy true s = true -> tidy false s = true.
Proof.
  destruct s as [|c s]; cbn; [reflexivity|].
  destruct (Ascii.eqb c " "); [discriminate | auto].
Qed.

Lemma tidy_lower s : forall b, tidy b s = true -> lower s = s.
Proof.
  unfold lower.
  induction s as [|c s IH]; intros b H; cbn in *; [reflexivity|].
  destruct (Ascii.eqb_spec c " ") as [->|_].
  - apply andb_true_iff in H as [_ H]. rewrite (IH _ H). reflexivity.
  - apply andb_true_iff in H as [Hc H]. apply andb_true_iff in Hc as [_ Hc].
    apply Ascii.eqb_eq in Hc. rewrite Hc, (IH _ H). reflexivity.
Qed.

Lemma tidy_sub_noise s : forall b, tidy b s = true -> sub_noise s = s.
Proof.
  unfold sub_noise.
  induction s as [|c s IH]; intros b H; cbn in *; [reflexivity|].
  destruct (Ascii.eqb_spec c " ") as [->|_].
  - apply andb_true_iff in H as [_ H]. rewrite (IH _ H). reflexivity.
  - apply andb_true_iff in H as [Hc H]. apply andb_true_iff in Hc as [Hc _].
    rewrite (plain_keep c Hc), (IH _ H). reflexivity.
Qed.

Lemma tidy_collapse s : forall b, tidy b s = true -> collapse_ws b s = s.
Proof.
  induction s as [|c s IH]; intros b H; cbn in *; [reflexivity|].
  destruct (Ascii.eqb_spec c " ") as [->|_].
  - apply andb_true_iff in H as [Hb H]. rewrite space_is_space.
    destruct b; [discriminate|]. rewrite (IH _ H). reflexivity.
  - apply andb_true_iff in H as [Hc H]. apply andb_true_iff in Hc as [Hc _].
    rewrite (plain_not_space c Hc), (IH _ H). reflexivity.
Qed.

Lemma tidy_lstrip s : forall b, tidy b s = true -> tidy false (lstrip s) = true.
Proof.
  induction s as [|c s IH]; intros b H; cbn in *; [reflexivity|].
  destruct (Ascii.eqb c " ") eqn:Ec.
  - rewrite (blank_is_space c Ec).
    apply andb_true_iff in H as [_ H]. eauto.
  - apply andb_true_iff in H as [Hc H].
    pose proof Hc as Hc'. apply andb_true_iff in Hc' as [Hp _].
    rewrite (plain_not_space c Hp). cbn. rewrite Ec, Hc. exact H.
Qed.

Lemma tidy_rstrip s : forall b, tidy b s = true -> tidy b (rstrip s) = true.
Proof.
  induction s as [|c s IH]; intros b H; cbn in *; [reflexivity|].
  destruct (Ascii.eqb c " ") eqn:Ec.
  - apply andb_true_iff in H as [Hb H]. specialize (IH _ H).
    destruct (rstrip s) as [|d r].
    + rewrite (blank_is_space c Ec). reflexivity.
    + cbn [tidy]. rewrite Ec, Hb. exact IH.
  - apply andb_true_iff in H as [Hc H]. specialize (IH _ H).
    pose proof Hc as Hc'. apply andb_true_iff in Hc' as [Hp _].
    destruct (rstrip s) as [|d r].
    + rewrite (plain_not_space c Hp). cbn. rewrite Ec, Hc. reflexivity.
    + cbn [tidy]. rewrite Ec, Hc. exact IH.
Qed.

Lemma tidy_strip s b : tidy b s = true -> tidy false (strip s) = true.
Proof.
  intros H. unfold strip. apply tidy_rstrip. eapply tidy_lstrip. exact H.
Qed.

(** On a tidy text [normalize] does nothing but strip. *)
Lemma normalize_of_tidy s b : tidy b s = true -> normalize s = strip s.
Proof.
  intros H. unfold normalize. rewrite (tidy_lower s b H).
  pose proof (tidy_strip s b H) as Hs.
  rewrite (tidy_sub_noise _ _ Hs). apply tidy_collapse. exact Hs.
Qed.

Lemma rstrip_idempotent s : rstrip (rstrip s) = rstrip s.
Proof.
  induction s as [|c s IH]; cbn; [reflexivity|].
  destruct (rstrip s) as [|d r] eqn:E.
  - destruct (is_space c) eqn:Es; cbn; [reflexivity|]. rewrite Es. reflexivity.
  - cbn [rstrip]. cbn [rstrip] in IH. rewrite IH. reflexivity.
Qed.

(** The first character of a text survives [rstrip] when it is not
    whitespace. *)
Lemma rstrip_head c s :
  is_space c = false -> exists r, rstrip (String c s) = String c r.
Proof.
  intros Hc. cbn. destruct (rstrip s); [rewrite Hc|]; eauto.
Qed.

Lemma lstrip_rstrip_lstrip s : lstrip (rstrip (lstrip s)) = rstrip (lstrip s).
Proof.
  induction s as [|c s IH]; cbn; [reflexivity|].
  destruct (is_space c) eqn:Es; [exact IH|].
  destruct (rstrip_head c s Es) as [r E]. rewrite E. cbn. rewrite Es.
  reflexivity.
Qed.

Lemma strip_idempotent s : strip (strip s) = strip s.
Proof.
  unfold strip. rewrite lstrip_rstrip_lstrip. apply rstrip_idempotent.
Qed.

(** X3.  Normalizing a normalized text only strips it: the second
    application removes the space that the first may have left at either
    end and changes nothing else. *)
Theorem normalize_twice_strips (text : string) :
  normalize (normalize text) = strip (normalize text).
Proof. exact (normalize_of_tidy _ _ (normalize_tidy text)). Qed.

(** X4.  [normalize] is stable from its second application on: a text
    normalized twice is a fixed point. *)
Theorem normalize_twice_is_fixed (text : string) :
  normalize (normalize (normalize text)) = normalize (normalize text).
Proof.
  rewrite (normalize_of_tidy _ _ (normalize_tidy text)).
  rewrite (normalize_of_tidy _ false (tidy_strip _ _ (normalize_tidy text))).
  apply strip_idempotent.
Qed.

(** ** The words the detectors see *)

Lemma rev_string_twice s : forall a b,
  rev_string a (rev_string b s) = rev_string (s ++ a)%string b.
Proof.
  induction s as [|c s IH]; intros a b; cbn; [reflexivity|].
  rewrite IH. reflexivity.
Qed.

Lemma string_app_empty s : (s ++ "")%string = s.
Proof. induction s as [|c s IH]; cbn; [reflexivity | rewrite IH; reflexivity]. Qed.

Lemma smap_app f a b : smap f (a ++ b)%string = (smap f a ++ smap f b)%string.
Proof. induction a as [|c a IH]; cbn; [reflexivity | rewrite IH; reflexivity]. Qed.

(** A run of characters that are not whitespace is read as one word. *)
Lemma split_ws_word w : forall cur,
  sall (fun c => negb (is_space c)) w = true ->
  split_ws cur w = flush (rev_string cur w).
Proof.
  induction w as [|c w IH]; intros cur H; cbn in *; [reflexivity|].
  apply andb_true_iff in H as [Hc H]. apply negb_true_iff in Hc.
  rewrite Hc. apply IH. exact H.
Qed.

Lemma split_ws_app_sep x : forall cur c y,
  is_space c = true ->
  split_ws cur (x ++ String c y)%string = split_ws cur x ++ split_ws "" y.
Proof.
  induction x as [|d x IH]; intros cur c y Hc; cbn.
  - rewrite Hc. reflexivity.
  - destruct (is_space d).
    + rewrite (IH "" c y Hc), app_assoc. reflexivity.
    + apply IH. exact Hc.
Qed.

Lemma collapse_keeps_words t : forall b cur,
  (b = true -> cur = "") ->
  split_ws cur (collapse_ws b t) = split_ws cur t.
Proof.
  induction t as [|c t IH]; intros b cur Hb; cbn; [reflexivity|].
  destruct (is_space c) eqn:Es.
  - destruct b.
    + rewrite (Hb eq_refl). cbn. apply IH. reflexivity.
    + cbn. rewrite (IH true "" (fun _ => eq_refl)). reflexivity.
  - cbn. rewrite Es. apply IH. discriminate.
Qed.

Lemma space_is_kept c : is_space c = true -> keep_char c = true.
Proof.
  intros H. unfold keep_char. rewrite H. cbn.
  rewrite orb_true_r. reflexivity.
Qed.

Lemma lstrip_keeps_words t :
  split_ws "" (sub_noise (lstrip t)) = split_ws "" (sub_noise t).
Proof.
  induction t as [|c t IH]; cbn; [reflexivity|].
  destruct (is_space c) eqn:Es; [|reflexivity].
  rewrite (space_is_kept c Es), Es. exact IH.
Qed.

Lemma rstrip_keeps_words t : forall cur,
  split_ws cur (sub_noise (rstrip t)) = split_ws cur (sub_noise t).
Proof.
  unfold sub_noise.
  induction t as [|c t IH]; intros cur; cbn [rstrip]; [reflexivity|].
  destruct (rstrip t) as [|d r] eqn:Er.
  - destruct (is_space c) eqn:Es.
    + cbn [smap split_ws]. rewrite (space_is_kept c Es), Es.
      rewrite <- (IH ""). cbn. rewrite app_nil_r. reflexivity.
    + cbn [smap split_ws]. destruct (keep_char c).
      * rewrite Es. rewrite <- (IH (String c cur)). reflexivity.
      * rewrite space_is_space. rewrite <- (IH ""). reflexivity.
  - rewrite <- Er in IH |- *. cbn [smap split_ws].
    destruct (is_space (if keep_char c then c else " "%char));
      rewrite IH; reflexivity.
Qed.

(** The words of the normalized query are the words of the query after
    each character is folded. *)
Lemma words_of_normalize query :
  split (normalize query) = split (smap fold_char query).
Proof.
  unfold split, normalize.
  rewrite collapse_keeps_words by discriminate.
  unfold strip. rewrite rstrip_keeps_words, lstrip_keeps_words.
  f_equal. unfold sub_noise, lower, fold_char.
  induction query as [|c q IH]; cbn; [reflexivity|].
  rewrite IH. reflexivity.
Qed.

Lemma fold_plain_word w :
  sall plain_char (lower w) = true -> smap fold_char w = lower w.
Proof.
  unfold lower, fold_char.
  induction w as [|c w IH]; cbn; [reflexivity|]. intros H.
  apply andb_true_iff in H as [Hc H].
  rewrite (plain_keep _ Hc), (IH H). reflexivity.
Qed.

Lemma plain_word_not_space h :
  sall plain_char h = true -> sall (fun c => negb (is_space c)) h = true.
Proof.
  induction h as [|c h IH]; cbn; [reflexivity|]. intros H.
  apply andb_true_iff in H as [Hc H].
  rewrite (plain_not_space c Hc), (IH H). reflexivity.
Qed.

Lemma split_ws_plain_word h :
  h <> "" -> sall plain_char h = true -> split_ws "" h = [h].
Proof.
  intros Hne Hp.
  rewrite (split_ws_word h "" (plain_word_not_space h Hp)).
  assert (E : rev_string "" (rev_string "" h) = h)
    by (rewrite rev_string_twice, string_app_empty; reflexivity).
  destruct (rev_string "" h) eqn:Er; unfold flush.
  - cbn in E. congruence.
  - rewrite E. reflexivity.
Qed.

(** A word written between separators, in any letter case, is one of the
    words the detectors compare with the hints. *)
Lemma delimited_word_is_token pre w post :
  ends_at_sep pre -> starts_at_sep post ->
  lower w <> "" -> sall plain_char (lower w) = true ->
  In (lower w) (split (normalize (pre ++ w ++ post)%string)).
Proof.
  intros Hpre Hpost Hne Hp.
  rewrite words_of_normalize. unfold split.
  rewrite !smap_app, (fold_plain_word w Hp).
  assert (Hmid : In (lower w)
                    (split_ws "" (lower w ++ smap fold_char post)%string)).
  { destruct Hpost as [->|[c [p [-> Hc]]]].
    - cbn [smap]. rewrite string_app_empty.
      rewrite (split_ws_plain_word _ Hne Hp). left. reflexivity.
    - cbn [smap]. rewrite (split_ws_app_sep (lower w) "" _ _ Hc).
      rewrite (split_ws_plain_word _ Hne Hp). left. reflexivity. }
  destruct Hpre as [->|[p [c [-> Hc]]]]; [exact Hmid|].
  rewrite smap_app. cbn [smap]. rewrite string_app_assoc. cbn [append].
  rewrite (split_ws_app_sep (smap fold_char p) "" _ _ Hc).
  apply in_or_app. right. exact Hmid.
Qed.

Lemma intersects_of_common tokens hints t :
  In t tokens -> In t hints -> intersects tokens hints = true.
Proof.
  intros Ht Hh. unfold intersects. apply existsb_exists.
  exists t. split; [exact Ht|].
  unfold mem_string. apply existsb_exists. exists t.
  split; [exact Hh | apply String.eqb_refl].
Qed.

(** Every configured hint is a non-empty word of plain characters. *)
Lemma lang_hints_plain name h :
  In h (hints_of LANG_HINTS name) -> h <> "" /\ sall plain_char h = true.
Proof.
  unfold hints_of, LANG_HINTS. cbn [find fst snd].
  destruct (String.eqb "es" name); [|destruct (String.eqb "en" name)];
    cbn [In]; intros H;
    repeat (destruct H as [<-|H]; [split; [discriminate | reflexivity]|]);
    contradiction.
Qed.

Lemma variant_hints_plain name h :
  In h (hints_of VARIANT_HINTS name) -> h <> "" /\ sall plain_char h = true.
Proof.
  unfold hints_of, VARIANT_HINTS. cbn [find fst snd].
  destruct (String.eqb "broker" name); [|destruct (String.eqb "standard" name)];
    cbn [In]; intros H;
    repeat (destruct H as [<-|H]; [split; [discriminate | reflexivity]|]);
    contradiction.
Qed.

Lemma first_hint_first table n1 h1 rest tokens :
  table = (n1, h1) :: rest ->
  intersects tokens h1 = true ->
  first_hint table tokens = Some n1.
Proof. intros -> H. cbn. rewrite H. reflexivity. Qed.

Lemma first_hint_second table n1 h1 n2 h2 rest tokens :
  table = (n1, h1) :: (n2, h2) :: rest ->
  intersects tokens h1 = false ->
  intersects tokens h2 = true ->
  first_hint table tokens = Some n2.
Proof. intros -> H1 H2. cbn. rewrite H1, H2. reflexivity. Qed.

(** X5.  A Spanish hint word written between separators (whitespace or
    punctuation that [normalize] blanks) in any letter case makes
    [detect_lang] answer "es", whatever else the query says: an English hint
    in the same query does not count.  An English hint written that way
    gives "en" when no word of the query is a Spanish hint. *)
Theorem detect_lang_delimited_hint (pre w post : string) :
  ends_at_sep pre -> starts_at_sep post ->
  (In (lower w) (hints_of LANG_HINTS "es") ->
   detect_lang (pre ++ w ++ post)%string = Some "es")
  /\ (In (lower w) (hints_of LANG_HINTS "en") ->
      intersects (split (normalize (pre ++ w ++ post)%string))
                 (hints_of LANG_HINTS "es") = false ->
      detect_lang (pre ++ w ++ post)%string = Some "en").
Proof.
  intros Hpre Hpost. split.
  - intros Hh. destruct (lang_hints_plain _ _ Hh) as [Hne Hp].
    pose proof (delimited_word_is_token pre w post Hpre Hpost Hne Hp) as Ht.
    unfold detect_lang.
    eapply first_hint_first; [reflexivity|].
    exact (intersects_of_common _ _ _ Ht Hh).
  - intros Hh Hes. destruct (lang_hints_plain _ _ Hh) as [Hne Hp].
    pose proof (delimited_word_is_token pre w post Hpre Hpost Hne Hp) as Ht.
    unfold detect_lang.
    eapply first_hint_second; [reflexivity | exact Hes |].
    exact (intersects_of_common _ _ _ Ht Hh).
Qed.

Lemma detect_lang_delimited_hint_witness :
  ends_at_sep "Pardo P43 #126,"
  /\ starts_at_sep ";English"
  /\ In (lower "ES") (hints_of LANG_HINTS "es")
  /\ detect_lang "Pardo P43 #126,ES;English" = Some "es".
Proof.
  assert (H1 : ends_at_sep "Pardo P43 #126,").
  { right. exists "Pardo P43 #126", ","%char. split; reflexivity. }
  assert (H2 : starts_at_sep ";English").
  { right. exists ";"%char, "English". split; reflexivity. }
  assert (H3 : In (lower "ES") (hints_of LANG_HINTS "es"))
    by (vm_compute; tauto).
  repeat (split; [assumption|]).
  exact (proj1 (detect_lang_delimited_hint
                  "Pardo P43 #126," "ES" ";English" H1 H2) H3).
Defined.

(** X6.  A broker hint word written between separators in any letter case
    makes [detect_variant] answer "broker", even when the query also holds
    a standard hint; a standard hint written that way gives "standard" when
    no word of the query is a broker hint. *)
Theorem detect_variant_delimited_hint (pre w post : string) :
  ends_at_sep pre -> starts_at_sep post ->
  (In (lower w) (hints_of VARIANT_HINTS "broker") ->
   detect_variant (pre ++ w ++ post)%string = Some "broker")
  /\ (In (lower w) (hints_of VARIANT_HINTS "standard") ->
      intersects (split (normalize (pre ++ w ++ post)%string))
                 (hints_of VARIANT_HINTS "broker") = false ->
      detect_variant (pre ++ w ++ post)%string = Some "standard").
Proof.
  intros Hpre Hpost. split.
  - intros Hh. destruct (variant_hints_plain _ _ Hh) as [Hne Hp].
    pose proof (delimited_word_is_token pre w post Hpre Hpost Hne Hp) as Ht.
    unfold detect_variant.
    eapply first_hint_first; [reflexivity|].
    exact (intersects_of_common _ _ _ Ht Hh).
  - intros Hh Hes. destruct (variant_hints_plain _ _ Hh) as [Hne Hp].
    pose proof (delimited_word_is_token pre w post Hpre Hpost Hne Hp) as Ht.
    unfold detect_variant.
    eapply first_hint_second; [reflexivity | exact Hes |].
    exact (intersects_of_common _ _ _ Ht Hh).
Qed.

Lemma detect_variant_delimited_hint_witness :
  ends_at_sep "p43 "
  /\ starts_at_sep ""
  /\ In (lower "STD") (hints_of VARIANT_HINTS "standard")
  /\ intersects (split (normalize "p43 STD")) (hints_of VARIANT_HINTS "broker")
     = false
  /\ detect_variant "p43 STD" = Some "standard".
Proof.
  assert (H1 : ends_at_sep "p43 ").
  { right. exists "p43", " "%char. split; reflexivity. }
  assert (H2 : starts_at_sep "") by (left; reflexivity).
  assert (H3 : In (lower "STD") (hints_of VARIANT_HINTS "standard"))
    by (vm_compute; tauto).
  assert (H4 : intersects (split (normalize "p43 STD"))
                          (hints_of VARIANT_HINTS "broker") = false)
    by reflexivity.
  repeat (split; [assumption|]).
  exact (proj2 (detect_variant_delimited_hint "p43 " "STD" "" H1 H2) H3 H4).
Defined.

(** ** What a unit reference can be *)

Section MatcherShape.
Local Open Scope string_scope.
Context {A : Type}.

Lemma star_cont_suffix p s (k : string -> option A) r :
  star p s k = Some r -> exists pre suf, s = pre ++ suf /\ k suf = Some r.
Proof.
  induction s as [|c s IH]; cbn; intros H.
  - exists "", "". auto.
  - destruct (p c); [|exists "", (String c s); auto].
    destruct (star p s k) eqn:E; cbn in H.
    + inversion H; subst. destruct (IH eq_refl) as [pre [suf [-> Hk]]].
      exists (String c pre), suf. auto.
    + exists "", (String c s). auto.
Qed.

Lemma rep_cont_run p hi : forall lo s (k : string -> option A) r,
  rep p lo hi s k = Some r ->
  exists pre suf,
    s = pre ++ suf /\ lo <= String.length pre <= hi
    /\ sall p pre = true /\ k suf = Some r.
Proof.
  assert (Hstop : forall hi lo s (k : string -> option A) r,
    match lo with O => k s | S _ => None end = Some r ->
    exists pre suf,
      s = pre ++ suf /\ lo <= String.length pre <= hi
      /\ sall p pre = true /\ k suf = Some r).
  { intros hi' [|lo] s k r H; [|discriminate].
    exists "", s. cbn. repeat split; auto; lia. }
  induction hi as [|hi IH]; intros lo s k r H; cbn in H; [auto|].
  destruct s as [|c s]; [auto|].
  destruct (p c) eqn:Ec; [|auto].
  destruct (rep p (Nat.pred lo) hi s k) eqn:E; cbn in H; [|auto].
  inversion H; subst.
  destruct (IH _ _ _ _ E) as [pre [suf [-> [[Hlo Hhi] [Hp Hk]]]]].
  exists (String c pre), suf. cbn. rewrite Ec, Hp.
  repeat split; auto; lia.
Qed.

Lemma rmatch_cont_suffix r : forall s g (k : string -> groups -> option A) res,
  rmatch r s g k = Some res ->
  exists pre s' g', s = pre ++ s' /\ k s' g' = Some res.
Proof.
  induction r as [|c|r1 IH1 r2 IH2|r1 IH1 r2 IH2|r1 IH1|p|p lo hi|n r1 IH1];
    intros s g k res H; cbn in H.
  - exists "", s, g. auto.
  - destruct s as [|x s]; [discriminate|].
    destruct (Ascii.eqb _ _); [|discriminate].
    exists (String x ""), s, g. auto.
  - apply IH1 in H as [p1 [s1 [g1 [-> H]]]].
    apply IH2 in H as [p2 [s2 [g2 [-> H]]]].
    exists (p1 ++ p2), s2, g2. rewrite string_app_assoc. auto.
  - destruct (rmatch r1 s g k) eqn:E; cbn in H; [|eauto].
    inversion H; subst. eauto.
  - destruct (rmatch r1 s g k) eqn:E; cbn in H.
    + inversion H; subst. eauto.
    + exists "", s, g. auto.
  - apply star_cont_suffix in H as [pre [suf [-> H]]]. eauto.
  - apply rep_cont_run in H as [pre [suf [-> [_ [_ H]]]]]. eauto.
  - apply IH1 in H as [p1 [s1 [g1 [-> H]]]]. eauto.
Qed.

End MatcherShape.

Lemma search_found_suffix r : forall s m,
  search r s = Some m ->
  exists pre s', s = (pre ++ s')%string /\ match_here r s' = Some m.
Proof.
  induction s as [|c s IH]; intros m H; cbn in H.
  - destruct (match_here r "") eqn:E; [|discriminate].
    inversion H; subst. exists "", "". auto.
  - destruct (match_here r (String c s)) eqn:E.
    + inversion H; subst. exists "", (String c s). auto.
    + destruct (IH _ H) as [pre [s' [-> Hm]]].
      exists (String c pre), s'. auto.
Qed.

(** The second group of any match of the pattern: one to five digits,
    standing in the searched text. *)
Lemma unit_ref_match_shape query m :
  search UNIT_REF_REGEX query = Some m ->
  exists u a b,
    m 2 = Some u /\ query = (a ++ u ++ b)%string
    /\ sall is_digit u = true /\ 1 <= String.length u <= 5.
Proof.
  intros H. apply search_found_suffix in H as [p0 [s0 [-> H]]].
  unfold match_here, UNIT_REF_REGEX, ref_digits in H. cbn [rmatch] in H.
  apply rmatch_cont_suffix in H as [p1 [s1 [g1 [-> H]]]].
  apply star_cont_suffix in H as [p2 [s2 [-> H]]].
  apply rep_cont_run in H as [u [b [-> [Hlen [Hd H]]]]].
  inversion H; subst m. rewrite consumed_app.
  exists u, (p0 ++ p1 ++ p2)%string, b.
  repeat split; try assumption; try lia.
  rewrite !string_app_assoc. reflexivity.
Qed.

(** X7.  A detected unit reference is made of one to five digits and is a
    contiguous piece of the raw query. *)
Theorem detect_unit_ref_shape (query u : string) :
  detect_unit_ref query = Some u ->
  sall is_digit u = true
  /\ 1 <= String.length u <= 5
  /\ exists a b, query = (a ++ u ++ b)%string.
Proof.
  unfold detect_unit_ref.
  destruct (search UNIT_REF_REGEX query) as [m|] eqn:E; [|discriminate].
  intros Hm.
  apply unit_ref_match_shape in E as [u' [a [b [Hu [Hq [Hd Hl]]]]]].
  assert (u' = u) by congruence. subst u'.
  repeat split; try assumption; try lia. eauto.
Qed.

Lemma detect_unit_ref_shape_witness :
  detect_unit_ref "JSO415 unit 12 es" = Some "12"
  /\ sall is_digit "12" = true
  /\ 1 <= String.length "12" <= 5
  /\ exists a b, "JSO415 unit 12 es" = (a ++ "12" ++ b)%string.
Proof.
  assert (H : detect_unit_ref "JSO415 unit 12 es" = Some "12")
    by (vm_compute; reflexivity).
  split; [exact H|].
  exact (detect_unit_ref_shape "JSO415 unit 12 es" "12" H).
Defined.

Lemma no_digit_inside a u b :
  sall (fun c => negb (is_digit c)) (a ++ u ++ b)%string = true ->
  sall is_digit u = true -> u = "".
Proof.
  induction a as [|c a IH]; cbn.
  - destruct u as [|d u]; [reflexivity|]. cbn. intros H1 H2.
    apply andb_true_iff in H1 as [H1 _]. apply andb_true_iff in H2 as [H2 _].
    rewrite H2 in H1. discriminate.
  - intros H. apply andb_true_iff in H as [_ H]. auto.
Qed.

(** X8.  A query without any digit has no unit reference, whatever markers
    it holds. *)
Theorem detect_unit_ref_needs_digit (query : string) :
  sall (fun c => negb (is_digit c)) query = true ->
  detect_unit_ref query = None.
Proof.
  intros Hq. unfold detect_unit_ref.
  destruct (search UNIT_REF_REGEX query) as [m|] eqn:E; [|reflexivity].
  apply unit_ref_match_shape in E as [u [a [b [_ [-> [Hd Hl]]]]]].
  rewrite (no_digit_inside a u b Hq Hd) in Hl. cbn in Hl. lia.
Qed.

Lemma detect_unit_ref_needs_digit_witness :
  sall (fun c => negb (is_digit c)) "order n. # unit" = true
  /\ detect_unit_ref "order n. # unit" = None.
Proof.
  assert (H : sall (fun c => negb (is_digit c)) "order n. # unit" = true)
    by reflexivity.
  split; [exact H|].
  exact (detect_unit_ref_needs_digit "order n. # unit" H).
Defined.

Section ShortRun.
Local Open Scope string_scope.

(** A bounded repetition takes a whole run that fits and stops where the
    run ends. *)
Lemma rep_takes_run {A} p pre : forall lo hi suf (k : string -> option A) r,
  sall p pre = true ->
  lo <= String.length pre <= hi ->
  match suf with EmptyString => true | String c _ => negb (p c) end = true ->
  k suf = Some r ->
  rep p lo hi (pre ++ suf) k = Some r.
Proof.
  induction pre as [|c pre IH]; intros lo hi suf k r Hp [Hlo Hhi] Hsuf Hk.
  - cbn in Hlo. assert (lo = 0) by lia. subst lo. cbn [append].
    destruct hi; cbn; [exact Hk|].
    destruct suf as [|d suf]; [exact Hk|].
    apply negb_true_iff in Hsuf. rewrite Hsuf. exact Hk.
  - cbn in Hp, Hlo, Hhi. apply andb_true_iff in Hp as [Hc Hp].
    destruct hi as [|hi]; [lia|]. cbn. rewrite Hc.
    rewrite (IH (Nat.pred lo) hi suf k r); auto. lia.
Qed.

Lemma ref_digits_takes_run g ws ds rest :
  sall is_space ws = true -> sall is_digit ds = true ->
  1 <= String.length ds <= 5 ->
  no_digit_ahead rest = true ->
  rmatch ref_digits (ws ++ ds ++ rest) g (fun _ m => Some m)
  = Some (set_group 2 ds g).
Proof.
  intros Hws Hds Hlen Hrest. unfold ref_digits. cbn [rmatch].
  apply star_skip; [exact Hws|].
  destruct ds as [|c ds]; [cbn in Hlen; lia|].
  pose proof Hds as Hds'. cbn in Hds'.
  apply andb_true_iff in Hds' as [Hc _].
  cbn [append star]. rewrite (digit_not_space c Hc).
  change (String c (ds ++ rest)) with (String c ds ++ rest).
  apply rep_takes_run; [exact Hds | exact Hlen | exact Hrest |].
  rewrite consumed_app. reflexivity.
Qed.

End ShortRun.

(** X9.  When the leftmost match of the pattern starts at a marker word (in
    any letter case) that is followed, after optional blanks, by a run of
    one to five digits that ends there, the unit reference is the whole
    run. *)
Theorem detect_unit_ref_takes_short_run (pre mk ws ds rest : string) :
  In (lower mk) unit_markers ->
  sall is_space ws = true ->
  sall is_digit ds = true ->
  1 <= String.length ds <= 5 ->
  no_digit_ahead rest = true ->
  (forall p1 p2 : string,
      pre = (p1 ++ p2)%string -> p2 <> "" ->
      match_here UNIT_REF_REGEX (p2 ++ mk ++ ws ++ ds ++ rest)%string = None) ->
  detect_unit_ref (pre ++ mk ++ ws ++ ds ++ rest)%string = Some ds.
Proof.
  intros Hmk Hws Hds Hlen Hrest Hpre. unfold detect_unit_ref.
  rewrite (search_skip _ _ _ Hpre).
  rewrite (search_here _ _
             (set_group 2 ds
                (set_group 1
                   (consumed (mk ++ ws ++ ds ++ rest)%string
                             (ws ++ ds ++ rest)%string)
                   no_groups))).
  - reflexivity.
  - unfold match_here, UNIT_REF_REGEX.
    refine (marker_matches mk (ws ++ ds ++ rest)%string no_groups
              (fun s1 g1 => rmatch ref_digits s1 g1 (fun _ g => Some g))
              _ Hmk _ _).
    + intros x t E. apply space_or_digit_lower_not_dot.
      destruct ws as [|w ws].
      * destruct ds as [|d ds]; [cbn in Hlen; lia|].
        cbn in E, Hds. inversion E; subst.
        apply andb_true_iff in Hds as [-> _]. apply orb_true_r.
      * cbn in E, Hws. inversion E; subst.
        apply andb_true_iff in Hws as [-> _]. reflexivity.
    + apply ref_digits_takes_run; assumption.
Qed.

Lemma detect_unit_ref_takes_short_run_witness :
  In (lower "N.") unit_markers
  /\ sall is_space "" = true
  /\ sall is_digit "49" = true
  /\ 1 <= String.length "49" <= 5
  /\ no_digit_ahead " broker" = true
  /\ detect_unit_ref "SO455 N.49 broker" = Some "49".
Proof.
  assert (H1 : In (lower "N.") unit_markers) by (vm_compute; tauto).
  assert (H2 : sall is_space "" = true) by reflexivity.
  assert (H3 : sall is_digit "49" = true) by reflexivity.
  assert (H4 : 1 <= String.length "49" <= 5) by (cbn; lia).
  assert (H5 : no_digit_ahead " broker" = true) by reflexivity.
  repeat (split; [assumption|]).
  apply (detect_unit_ref_takes_short_run "SO455 " "N." "" "49" " broker"
           H1 H2 H3 H4 H5).
  intros p1 p2 E Hp2.
  repeat (destruct p1 as [|? p1]; cbn in E;
          [subst p2; vm_compute; reflexivity
          | injection E as _ E]).
  destruct p1; cbn in E; [|discriminate].
  subst p2. contradiction.
Defined.

(** ** Where a unit reference can start *)

Lemma match_here_needs_marker c s :
  marker_start c = false -> match_here UNIT_REF_REGEX (String c s) = None.
Proof.
  unfold marker_start. intros H.
  apply orb_false_iff in H as [H Hn]. apply orb_false_iff in H as [H Ho].
  apply orb_false_iff in H as [Hh Hu].
  unfold match_here, UNIT_REF_REGEX, marker_alts.
  cbn [rmatch lit].
  change (lower_char "#") with "#"%char. change (lower_char "u") with "u"%char.
  change (lower_char "o") with "o"%char. change (lower_char "n") with "n"%char.
  rewrite Hh, Hu, Ho, Hn. reflexivity.
Qed.

Lemma match_here_empty : match_here UNIT_REF_REGEX "" = None.
Proof. reflexivity. Qed.

(** X10.  Digits alone are no unit reference: a query in which no character
    is [#] or one of the letters u, o, n (in either case) has none. *)
Theorem detect_unit_ref_needs_marker (query : string) :
  sall (fun c => negb (marker_start c)) query = true ->
  detect_unit_ref query = None.
Proof.
  intros H. unfold detect_unit_ref.
  assert (E : search UNIT_REF_REGEX query = None).
  { induction query as [|c q IH]; [reflexivity|].
    cbn in H. apply andb_true_iff in H as [Hc H].
    apply negb_true_iff in Hc.
    cbn [search]. rewrite (match_here_needs_marker c q Hc). auto. }
  rewrite E. reflexivity.
Qed.

Lemma detect_unit_ref_needs_marker_witness :
  sall (fun c => negb (marker_start c)) "P43 126 ES" = true
  /\ detect_unit_ref "P43 126 ES" = None.
Proof.
  assert (H : sall (fun c => negb (marker_start c)) "P43 126 ES" = true)
    by reflexivity.
  split; [exact H|].
  exact (detect_unit_ref_needs_marker "P43 126 ES" H).
Defined.

(** ** The document filter as one filter *)

Lemma filter_filter {A} (p q : A -> bool) l :
  filter q (filter p l) = filter (fun x => (p x && q x)%bool) l.
Proof.
  induction l as [|x l IH]; cbn; [reflexivity|].
  destruct (p x); cbn; [destruct (q x)|]; rewrite IH; reflexivity.
Qed.

Lemma filter_if_as_filter v field out :
  filter_if v field out = filter (fun x => slot_ok v (field x)) out.
Proof.
  unfold filter_if, slot_ok. destruct v as [w|].
  - destruct (truthy (Some w)); cbn [negb orb]; [reflexivity|].
    induction out as [|x out IH]; cbn; [reflexivity|]. rewrite <- IH.
    reflexivity.
  - induction out as [|x out IH]; cbn; [reflexivity|]. rewrite <- IH.
    reflexivity.
Qed.

Lemma filter_doc_fused cands u l v :
  filter_doc cands u l v
  = filter (fun x => (slot_ok u (unit_ref x) && slot_ok l (lang x)
                      && slot_ok v (variant x))%bool) cands.
Proof.
  unfold filter_doc. rewrite !filter_if_as_filter, !filter_filter.
  apply filter_ext. intros x.
  destruct (slot_ok u (unit_ref x)), (slot_ok l (lang x)); reflexivity.
Qed.

Lemma slot_ok_iff slot value :
  slot_ok slot value = true <-> (truthy slot = true -> slot = Some value).
Proof.
  unfold slot_ok. destruct slot as [w|]; [|split; [discriminate | reflexivity]].
  destruct (truthy (Some w)); cbn [negb orb].
  - rewrite String.eqb_eq. split.
    + intros -> _. reflexivity.
    + intros H. specialize (H eq_refl). congruence.
  - split; [discriminate | reflexivity].
Qed.

(** X11.  [filter_doc] keeps exactly the candidates that agree with every
    slot that is set (a slot that is [None] or empty constrains nothing),
    and keeps them in the order of the candidate list. *)
Theorem filter_doc_membership_and_order (cands : list entry)
        (u l v : option string) :
  (forall x, In x (filter_doc cands u l v) <->
             In x cands
             /\ (truthy u = true -> u = Some (unit_ref x))
             /\ (truthy l = true -> l = Some (lang x))
             /\ (truthy v = true -> v = Some (variant x)))
  /\ exists keep, filter_doc cands u l v = filter keep cands.
Proof.
  split; [|eexists; apply filter_doc_fused].
  intros x. rewrite filter_doc_fused, filter_In, !andb_true_iff, !slot_ok_iff.
  tauto.
Qed.

(** X12.  Filtering is idempotent and can be done in stages, in any order:
    narrowing by unit first and by language and variant afterwards, or the
    other way round, is filtering by the three at once. *)
Theorem filter_doc_in_stages (cands : list entry) (u l v : option string) :
  filter_doc (filter_doc cands u l v) u l v = filter_doc cands u l v
  /\ filter_doc (filter_doc cands u None None) None l v
     = filter_doc cands u l v
  /\ filter_doc (filter_doc cands None l v) u None None
     = filter_doc cands u l v.
Proof.
  rewrite !filter_doc_fused, !filter_filter. cbn [slot_ok].
  repeat split; apply filter_ext; intros x;
    destruct (slot_ok u (unit_ref x)), (slot_ok l (lang x)),
      (slot_ok v (variant x)); reflexivity.
Qed.

(** ** What finalize delivers *)

Lemma filter_doc_in cands u l v x :
  In x (filter_doc cands u l v) ->
  In x cands
  /\ (truthy u = true -> u = Some (unit_ref x))
  /\ (truthy l = true -> l = Some (lang x))
  /\ (truthy v = true -> v = Some (variant x)).
Proof.
  rewrite filter_doc_fused, filter_In, !andb_true_iff, !slot_ok_iff. tauto.
Qed.

(** X13.  When some candidate agrees with all the slots that are set,
    finalize delivers the first such candidate in the order of the
    candidate list, and no fallback is applied. *)
Theorem finalize_delivers_first_exact_match (f : flow) (x : entry)
        (rest : list entry) :
  filter_doc (f_cands f) (f_unit_ref f) (f_lang f) (f_variant f) = x :: rest ->
  finalize_and_send f = (None, [Deliver x]).
Proof.
  intros H. unfold finalize_and_send.
  rewrite finalize_docs_exact by (rewrite H; discriminate).
  rewrite H. reflexivity.
Qed.

Lemma finalize_delivers_first_exact_match_witness :
  filter_doc (f_cands Sample.flow_126_en_standard) (Some "126") (Some "en")
             (Some "broker")
  = [Sample.p43_126_en]
  /\ finalize_and_send (set_variant (Some "broker") Sample.flow_126_en_standard)
     = (None, [Deliver Sample.p43_126_en]).
Proof.
  assert (H : filter_doc (f_cands Sample.flow_126_en_standard) (Some "126")
                         (Some "en") (Some "broker") = [Sample.p43_126_en])
    by reflexivity.
  split; [exact H|].
  exact (finalize_delivers_first_exact_match
           (set_variant (Some "broker") Sample.flow_126_en_standard) _ _ H).
Defined.

(** X14.  Whatever finalize delivers is one of the stored candidates, and
    when the unit slot is set it is a document of that unit: the fallbacks
    never move to another unit. *)
Theorem finalize_keeps_unit (f : flow) (item : entry) :
  finalize_and_send f = (None, [Deliver item]) ->
  In item (f_cands f)
  /\ (truthy (f_unit_ref f) = true -> f_unit_ref f = Some (unit_ref item)).
Proof.
  unfold finalize_and_send. intros H.
  assert (Hin : In item (finalize_docs f)).
  { destruct (finalize_docs f) as [|y r]; inversion H; subst.
    left. reflexivity. }
  clear H.
  destruct (finalize_docs_cases f) as [[_ E]|[[_ [_ [_ E]]]|[_ [_ E]]]];
    rewrite E in Hin; apply filter_doc_in in Hin; tauto.
Qed.

Lemma finalize_keeps_unit_witness :
  finalize_and_send Sample.flow_126_en_standard
  = (None, [Deliver Sample.p43_126_en])
  /\ In Sample.p43_126_en (f_cands Sample.flow_126_en_standard)
  /\ (truthy (f_unit_ref Sample.flow_126_en_standard) = true ->
      f_unit_ref Sample.flow_126_en_standard
      = Some (unit_ref Sample.p43_126_en)).
Proof.
  assert (H : finalize_and_send Sample.flow_126_en_standard
              = (None, [Deliver Sample.p43_126_en])) by reflexivity.
  split; [exact H|].
  exact (finalize_keeps_unit Sample.flow_126_en_standard _ H).
Defined.

(** X15.  The language outranks the variant: when the language is set and
    some candidate of the unit has it, the delivered document is in that
    language, even if the variant had to be given up. *)
Theorem finalize_keeps_language (f : flow) :
  truthy (f_lang f) = true ->
  filter_doc (f_cands f) (f_unit_ref f) (f_lang f) None <> [] ->
  exists item,
    finalize_and_send f = (None, [Deliver item])
    /\ f_lang f = Some (lang item).
Proof.
  intros Hl Hne.
  assert (Hd : exists item rest v,
             finalize_docs f = item :: rest
             /\ In item (filter_doc (f_cands f) (f_unit_ref f) (f_lang f) v)).
  { destruct (finalize_docs_cases f) as [[N E]|[[_ [_ [N E]]]|[_ [N _]]]].
    - destruct (filter_doc _ _ _ (f_variant f)) as [|y r] eqn:Ef;
        [contradiction|].
      exists y, r, (f_variant f). rewrite E, Ef. split; [reflexivity|].
      left. reflexivity.
    - destruct (filter_doc _ _ _ None) as [|y r] eqn:Ef; [contradiction|].
      exists y, r, None. rewrite E, Ef. split; [reflexivity|].
      left. reflexivity.
    - specialize (N Hl). contradiction. }
  destruct Hd as [item [rest [v [E Hin]]]].
  exists item. unfold finalize_and_send. rewrite E.
  split; [reflexivity|].
  apply filter_doc_in in Hin. tauto.
Qed.

Lemma finalize_keeps_language_witness :
  truthy (f_lang Sample.flow_126_en_standard) = true
  /\ filter_doc (f_cands Sample.flow_126_en_standard)
                (f_unit_ref Sample.flow_126_en_standard)
                (f_lang Sample.flow_126_en_standard) None <> []
  /\ exists item,
      finalize_and_send Sample.flow_126_en_standard = (None, [Deliver item])
      /\ f_lang Sample.flow_126_en_standard = Some (lang item).
Proof.
  assert (H1 : truthy (f_lang Sample.flow_126_en_standard) = true)
    by reflexivity.
  assert (H2 : filter_doc (f_cands Sample.flow_126_en_standard)
                          (f_unit_ref Sample.flow_126_en_standard)
                          (f_lang Sample.flow_126_en_standard) None <> [])
    by (vm_compute; discriminate).
  repeat (split; [assumption|]).
  exact (finalize_keeps_language Sample.flow_126_en_standard H1 H2).
Defined.

(** X16.  The variant is never tried without the language: when no
    candidate of the unit is in the wanted language, finalize delivers the
    first candidate of the unit whatever its variant, even if a later
    candidate of the unit has the wanted variant. *)
Theorem finalize_drops_variant_with_language (f : flow) (x : entry)
        (rest : list entry) :
  filter_doc (f_cands f) (f_unit_ref f) (f_lang f) None = [] ->
  filter_doc (f_cands f) (f_unit_ref f) None None = x :: rest ->
  finalize_and_send f = (None, [Deliver x]).
Proof.
  intros Hl Hu. unfold finalize_and_send.
  destruct (finalize_docs_cases f) as [[N _]|[[_ [_ [N _]]]|[_ [_ E]]]].
  - exfalso. apply N. apply filter_doc_drop_variant_nil. exact Hl.
  - contradiction.
  - rewrite E, Hu. reflexivity.
Qed.

Lemma finalize_drops_variant_with_language_witness :
  filter_doc (f_cands Sample.flow_131_en_broker) (Some "131") (Some "en") None
  = []
  /\ filter_doc (f_cands Sample.flow_131_en_broker) (Some "131") None None
     = [Sample.p43_131_es; Sample.p43_131_es_bf]
  /\ variant Sample.p43_131_es_bf = "broker"
  /\ finalize_and_send Sample.flow_131_en_broker
     = (None, [Deliver Sample.p43_131_es]).
Proof.
  assert (H1 : filter_doc (f_cands Sample.flow_131_en_broker) (Some "131")
                          (Some "en") None = []) by reflexivity.
  assert (H2 : filter_doc (f_cands Sample.flow_131_en_broker) (Some "131")
                          None None
               = [Sample.p43_131_es; Sample.p43_131_es_bf]) by reflexivity.
  split; [exact H1|]. split; [exact H2|]. split; [reflexivity|].
  exact (finalize_drops_variant_with_language
           Sample.flow_131_en_broker _ _ H1 H2).
Defined.

(** ** The units offered *)

Lemma unique_units_pairs cands u :
  In u (unique_units cands) <-> In (unit_ref u, u) (units_of cands).
Proof.
  unfold unique_units.
  pose proof (sorted_perm (fun kv => unit_rank (snd kv)) rank_lt
                (units_of cands)) as Hperm.
  rewrite in_map_iff. split.
  - intros [[k v] [<- Hin]]. cbn.
    apply (Permutation_in _ (Permutation_sym Hperm)) in Hin.
    rewrite (units_of_key_is_unit _ _ _ Hin). exact Hin.
  - intros Hin. exists (unit_ref u, u). split; [reflexivity|].
    exact (Permutation_in _ Hperm Hin).
Qed.

Lemma unique_units_incl cands u : In u (unique_units cands) -> In u cands.
Proof.
  rewrite unique_units_pairs. intros H.
  apply (proj1 (proj2 (units_of_inv cands))) in H.
  apply find_some in H. tauto.
Qed.

Lemma unique_units_covers cands x :
  In x cands -> exists u, In u (unique_units cands) /\ unit_ref u = unit_ref x.
Proof.
  intros Hx. pose proof (proj2 (proj2 (units_of_inv cands)) x Hx) as Hk.
  apply has_key_iff, in_map_iff in Hk as [[k v] [Hkx Hin]]. cbn in Hkx.
  pose proof (units_of_key_is_unit _ _ _ Hin) as Hv.
  exists v. split; [|congruence].
  apply unique_units_pairs. rewrite Hv. exact Hin.
Qed.

Lemma unique_units_distinct cands : NoDup (map unit_ref (unique_units cands)).
Proof.
  unfold unique_units.
  pose proof (sorted_perm (fun kv => unit_rank (snd kv)) rank_lt
                (units_of cands)) as Hperm.
  assert (E : forall d, (forall k v, In (k, v) d -> unit_ref v = k) ->
                        map unit_ref (map snd d) = map fst d).
  { induction d as [|[k v] d IH]; cbn; intros H; [reflexivity|].
    rewrite (H k v), IH; auto. }
  rewrite E.
  - eapply Permutation_NoDup; [apply Permutation_map; exact Hperm|].
    apply units_of_inv.
  - intros k v H. eapply units_of_key_is_unit.
    exact (Permutation_in _ (Permutation_sym Hperm) H).
Qed.

(** X17.  [ask_unit] asks exactly when the candidates belong to at least
    two different units.  Otherwise it asks nothing and sets the unit slot
    to the unit all candidates share ([None] without candidates). *)
Theorem ask_unit_asks_iff_two_units (f : flow) :
  (fst (fst (ask_unit f)) = true <->
   exists x y, In x (f_cands f) /\ In y (f_cands f)
               /\ unit_ref x <> unit_ref y)
  /\ (fst (fst (ask_unit f)) = false ->
      (f_cands f = [] /\ f_unit_ref (snd (fst (ask_unit f))) = None)
      \/ (f_cands f <> []
          /\ forall x, In x (f_cands f) ->
                       f_unit_ref (snd (fst (ask_unit f)))
                       = Some (unit_ref x))).
Proof.
  pose proof (unique_units_distinct (f_cands f)) as Hnd.
  pose proof (unique_units_incl (f_cands f)) as Hincl.
  pose proof (unique_units_covers (f_cands f)) as Hcov.
  unfold ask_unit.
  destruct (unique_units (f_cands f)) as [|a [|b r]] eqn:Eu; cbn.
  - split; [split; [discriminate|]|].
    + intros [x [_ [Hx _]]]. destruct (Hcov x Hx) as [u [[] _]].
    + intros _. left. split; [|reflexivity].
      destruct (f_cands f) as [|x l]; [reflexivity|].
      destruct (Hcov x (or_introl eq_refl)) as [u [[] _]].
  - split; [split; [discriminate|]|].
    + intros [x [y [Hx [Hy Hxy]]]].
      destruct (Hcov x Hx) as [u [[<-|[]] Eux]].
      destruct (Hcov y Hy) as [w [[<-|[]] Ewy]]. congruence.
    + intros _. right. split.
      * intros E. specialize (Hincl a (or_introl eq_refl)).
        rewrite E in Hincl. contradiction.
      * intros x Hx. destruct (Hcov x Hx) as [u [[<-|[]] Eux]].
        rewrite Eux. reflexivity.
  - split; [split; [|reflexivity]|discriminate].
    intros _. exists a, b. repeat split.
    + apply Hincl. left. reflexivity.
    + apply Hincl. right. left. reflexivity.
    + cbn in Hnd. inversion Hnd as [|? ? Hnotin _]; subst.
      intros E. apply Hnotin. left. symmetry. exact E.
Qed.

Lemma ask_unit_asks_iff_two_units_witness :
  fst (fst (ask_unit Sample.flow_awaiting_unit)) = true
  /\ exists x y, In x (f_cands Sample.flow_awaiting_unit)
                 /\ In y (f_cands Sample.flow_awaiting_unit)
                 /\ unit_ref x <> unit_ref y.
Proof.
  assert (H : fst (fst (ask_unit Sample.flow_awaiting_unit)) = true)
    by reflexivity.
  split; [exact H|].
  exact (proj1 (proj1 (ask_unit_asks_iff_two_units Sample.flow_awaiting_unit))
               H).
Defined.

(** ** Running [unique_units] on its own result *)

Lemma sorted_fixed {A K} (key : A -> K) (lt : K -> K -> bool) l :
  StronglySorted (not_after key lt) l -> sorted key lt l = l.
Proof.
  induction 1 as [|x l Hs IH Hall]; cbn; [reflexivity|].
  unfold sorted in IH. rewrite IH.
  destruct l as [|y l]; cbn; [reflexivity|].
  inversion Hall as [|? ? Hy _]; subst. unfold not_after in Hy.
  rewrite Hy. reflexivity.
Qed.

Lemma units_of_distinct l :
  NoDup (map unit_ref l) -> units_of l = map (fun x => (unit_ref x, x)) l.
Proof.
  induction l as [|x l IH] using rev_ind; intros Hnd; [reflexivity|].
  rewrite map_app in Hnd. cbn in Hnd.
  apply NoDup_remove in Hnd as [Hnd Hx]. rewrite app_nil_r in Hnd, Hx.
  rewrite units_of_snoc, (IH Hnd), map_app. unfold setdefault.
  destruct (has_key (unit_ref x) (map (fun y => (unit_ref y, y)) l)) eqn:E;
    [|reflexivity].
  exfalso. apply Hx. apply has_key_iff in E.
  rewrite map_map in E. exact E.
Qed.

Lemma pairs_of_values (d : list (string * entry)) :
  (forall k v, In (k, v) d -> unit_ref v = k) ->
  map (fun x => (unit_ref x, x)) (map snd d) = d.
Proof.
  induction d as [|[k v] d IH]; cbn; intros H; [reflexivity|].
  rewrite (H k v), IH; auto.
Qed.

(** X18.  [unique_units] is idempotent: applied to its own result it
    changes nothing, neither the rows nor their order. *)
Theorem unique_units_idempotent (cands : list entry) :
  unique_units (unique_units cands) = unique_units cands.
Proof.
  pose proof (unique_units_distinct cands) as Hnd.
  unfold unique_units at 1. rewrite (units_of_distinct _ Hnd).
  unfold unique_units.
  pose proof (sorted_perm (fun kv => unit_rank (snd kv)) rank_lt
                (units_of cands)) as Hperm.
  rewrite pairs_of_values.
  - rewrite sorted_fixed; [reflexivity|].
    apply (sorted_ordered _ rank_lt rank_lt_asym).
    intros a b c. apply rank_not_lt_trans.
  - intros k v H. eapply units_of_key_is_unit.
    exact (Permutation_in _ (Permutation_sym Hperm) H).
Qed.

(** ** The two parallel lists of [best_model_match] *)

Section MatchFacts.

Variable CATALOG : list entry.
Variable extractOne : string -> list string -> option (string * Q * nat).




(** X20.  The candidates of a query are rows of the catalog, in the order
    of the catalog: the result is a filtering of [CATALOG]. *)
Theorem candidates_are_catalog_rows_in_order (query : string)
        (cands : list entry) (score : Q) :
  candidates_for_query CATALOG extractOne query = Ok (cands, score) ->
  exists keep, cands = filter keep CATALOG.
Proof.
  unfold candidates_for_query.
  destruct (best_model_match CATALOG extractOne query)
    as [[[base|] s]|]; cbn [bind]; try discriminate.
  2:{ intros H. inversion H; subst. exists (fun _ => false).
      induction CATALOG; cbn; auto. }
  destruct (below_threshold s).
  { intros H. inversion H; subst. exists (fun _ => false).
    induction CATALOG; cbn; auto. }
  unfold family.
  destruct (detect_unit_ref query) as [u|].
  - destruct (truthy (Some u)).
    + destruct (filter (fun x => String.eqb (unit_ref x) u) _) eqn:Ef;
        cbn [is_empty negb]; intros H; inversion H; subst.
      * eexists. reflexivity.
      * rewrite <- Ef, filter_filter. eexists. reflexivity.
    + intros H. inversion H; subst. eexists. reflexivity.
  - intros H. inversion H; subst. eexists. reflexivity.
Qed.

End MatchFacts.


Lemma candidates_are_catalog_rows_in_order_witness :
  candidates_for_query Sample.catalog Sample.prefix_scorer "pardo p43"
  = Ok ([Sample.p43_126_es; Sample.p43_126_en; Sample.p43_131_es], 100%Q)
  /\ exists keep,
      [Sample.p43_126_es; Sample.p43_126_en; Sample.p43_131_es]
      = filter keep Sample.catalog.
Proof.
  assert (H : candidates_for_query Sample.catalog Sample.prefix_scorer
                                   "pardo p43"
              = Ok ([Sample.p43_126_es; Sample.p43_126_en; Sample.p43_131_es],
                    100%Q)) by (vm_compute; reflexivity).
  split; [exact H|].
  exact (candidates_are_catalog_rows_in_order
           Sample.catalog Sample.prefix_scorer "pardo p43" _ _ H).
Defined.

(** ** How a run of the flow ends *)

Lemma evaluate_slots_unit_set g :
  truthy (f_unit_ref g) = true ->
  evaluate_slots g
  = if truthy (f_lang g)
    then (if truthy (f_variant g) then finalize_and_send g
          else (Some (set_stage (Some StVariant) g), [AskVariant]))
    else (Some (set_stage (Some StLang) g), [AskLang]).
Proof.
  intros Hu. unfold evaluate_slots, ask_lang, ask_variant. rewrite Hu.
  cbn [negb].
  destruct (truthy (f_lang g)); [|reflexivity].
  destruct (truthy (f_variant g)); [|reflexivity].
  destruct (finalize_and_send g). reflexivity.
Qed.

Lemma evaluate_slots_unit_unset g :
  truthy (f_unit_ref g) = false ->
  evaluate_slots g
  = match unique_units (f_cands g) with
    | _ :: _ :: _ =>
        (Some (set_stage (Some StUnit) g),
         [AskUnit (firstn 10 (unique_units (f_cands g)))])
    | units =>
        let g1 := set_unit_ref (match units with
                                | u0 :: _ => Some (unit_ref u0)
                                | [] => None
                                end) g in
        if truthy (f_lang g)
        then (if truthy (f_variant g) then finalize_and_send g1
              else (Some (set_stage (Some StVariant) g1), [AskVariant]))
        else (Some (set_stage (Some StLang) g1), [AskLang])
    end.
Proof.
  intros Hu. unfold evaluate_slots, ask_unit. rewrite Hu. cbn [negb].
  assert (Hrest : forall g1,
    f_lang g1 = f_lang g -> f_variant g1 = f_variant g ->
    (let '(asked, f, out2) := ask_lang g1 in
     if asked then (Some f, [] ++ out2)
     else
       let '(asked0, f0, out3) := ask_variant f in
       if asked0 then (Some f0, [] ++ out2 ++ out3)
       else let '(ud, out4) := finalize_and_send f0 in
            (ud, [] ++ out2 ++ out3 ++ out4))
    = if truthy (f_lang g)
      then (if truthy (f_variant g) then finalize_and_send g1
            else (Some (set_stage (Some StVariant) g1), [AskVariant]))
      else (Some (set_stage (Some StLang) g1), [AskLang])).
  { intros g1 El Ev. unfold ask_lang, ask_variant. rewrite El.
    destruct (truthy (f_lang g)); [|reflexivity].
    rewrite Ev. destruct (truthy (f_variant g)); [|reflexivity].
    destruct (finalize_and_send g1). reflexivity. }
  destruct (unique_units (f_cands g)) as [|a [|b r]];
    cbn [List.length Nat.leb]; cbv zeta.
  - apply Hrest; reflexivity.
  - apply Hrest; reflexivity.
  - reflexivity.
Qed.

Lemma finalize_and_send_final f :
  finalize_and_send f = (None, [NoDocument])
  \/ exists x, finalize_and_send f = (None, [Deliver x]).
Proof.
  unfold finalize_and_send. destruct (finalize_docs f); eauto.
Qed.

(** X21.  A run of [run_flow] that returns sends exactly one message and
    leaves the session in one of two shapes: closed, after a final message
    (no card, no document, or a document); or open, after one question,
    with the stage naming the question and the asked slot still unfilled.
    A unit question offers between two and ten units. *)
Theorem run_flow_ends_closed_or_asking (CATALOG : list entry)
        (extractOne : string -> list string -> option (string * Q * nat))
        (query : string) (ud ud' : user_data) (out : list msg) :
  run_flow CATALOG extractOne query ud = Ok (ud', out) ->
  (ud' = None
   /\ (out = [NoCardFound] \/ out = [NoDocument]
       \/ exists x, out = [Deliver x]))
  \/ exists f',
      ud' = Some f'
      /\ ((exists cs, out = [AskUnit cs] /\ f_stage f' = Some StUnit
                      /\ truthy (f_unit_ref f') = false
                      /\ 2 <= List.length cs <= 10)
          \/ (out = [AskLang] /\ f_stage f' = Some StLang
              /\ truthy (f_lang f') = false)
          \/ (out = [AskVariant] /\ f_stage f' = Some StVariant
              /\ truthy (f_lang f') = true
              /\ truthy (f_variant f') = false)).
Proof.
  unfold run_flow.
  destruct (candidates_for_query CATALOG extractOne query)
    as [[cands score]|]; cbn [bind]; [|discriminate].
  destruct cands as [|c0 cands]; cbn [is_empty].
  { intros H. inversion H; subst. left. auto. }
  set (g := set_cands (c0 :: cands) (prefill query ud)).
  intros H. inversion H as [He]. clear H.
  destruct (truthy (f_unit_ref g)) eqn:Eu.
  - rewrite (evaluate_slots_unit_set g Eu) in He.
    destruct (truthy (f_lang g)) eqn:El.
    + destruct (truthy (f_variant g)) eqn:Ev.
      * left. destruct (finalize_and_send_final g) as [E|[x E]];
          rewrite E in He; inversion He; subst; eauto.
      * right. inversion He; subst. eexists. split; [reflexivity|].
        right. right. cbn. auto.
    + right. inversion He; subst. eexists. split; [reflexivity|].
      right. left. cbn. auto.
  - rewrite (evaluate_slots_unit_unset g Eu) in He.
    destruct (unique_units (f_cands g)) as [|a [|b r]] eqn:Eq.
    1,2: cbn zeta in He;
      (destruct (truthy (f_lang g)) eqn:El;
       [destruct (truthy (f_variant g)) eqn:Ev|]);
      [ left;
        match type of He with
        | finalize_and_send ?x = _ =>
            destruct (finalize_and_send_final x) as [E|[x' E]]
        end; rewrite E in He; inversion He; subst; eauto
      | right; inversion He; subst; eexists; split; [reflexivity|];
        right; right; cbn; auto
      | right; inversion He; subst; eexists; split; [reflexivity|];
        right; left; cbn; auto ].
    right. pose proof (f_equal fst He) as H1. pose proof (f_equal snd He) as H2.
    cbn [fst snd] in H1, H2. subst ud' out.
    eexists. split; [reflexivity|].
    left. eexists. split; [reflexivity|]. cbn [f_stage f_unit_ref set_stage].
    split; [reflexivity|]. split; [exact Eu|].
    rewrite length_firstn. cbn [List.length]. lia.
Qed.

Lemma run_flow_ends_closed_or_asking_witness :
  run_flow Sample.catalog Sample.prefix_scorer "pardo p43 es" None
  = Ok (Some Sample.flow_awaiting_unit,
        [AskUnit [Sample.p43_131_es; Sample.p43_126_es]])
  /\ f_stage Sample.flow_awaiting_unit = Some StUnit
  /\ truthy (f_unit_ref Sample.flow_awaiting_unit) = false.
Proof.
  assert (H : run_flow Sample.catalog Sample.prefix_scorer "pardo p43 es" None
              = Ok (Some Sample.flow_awaiting_unit,
                    [AskUnit [Sample.p43_131_es; Sample.p43_126_es]]))
    by (vm_compute; reflexivity).
  split; [exact H|].
  destruct (run_flow_ends_closed_or_asking _ _ _ _ _ _ H)
    as [[E _]|[f' [E [[cs [Eo [Hs [Hu _]]]]|[[Eo _]|[Eo _]]]]]];
    try discriminate.
  inversion E; subst f'. split; assumption.
Defined.

Lemma first_hint_name table tokens n :
  first_hint table tokens = Some n -> In n (map fst table).
Proof.
  induction table as [|[name hints] rest IH]; cbn; [discriminate|].
  destruct (intersects tokens hints).
  - intros H. inversion H. left. reflexivity.
  - intros H. right. auto.
Qed.

Lemma detect_lang_truthy query l :
  detect_lang query = Some l -> truthy (Some l) = true.
Proof.
  intros H. apply first_hint_name in H. cbn in H.
  destruct H as [<-|[<-|[]]]; reflexivity.
Qed.

Lemma detect_variant_truthy query v :
  detect_variant query = Some v -> truthy (Some v) = true.
Proof.
  intros H. apply first_hint_name in H. cbn in H.
  destruct H as [<-|[<-|[]]]; reflexivity.
Qed.

Section RunFacts.

Variable CATALOG : list entry.
Variable extractOne : string -> list string -> option (string * Q * nat).

(** X22.  When the detectors find a unit reference, a language and a
    variant in the query and the query has candidates, [run_flow] asks
    nothing: it finalizes at once on the detected values, whatever the
    session held before, and closes the session. *)
Theorem run_flow_all_detected_finalizes (query : string) (ud : user_data)
        (cands : list entry) (score : Q) (u l v : string) :
  candidates_for_query CATALOG extractOne query = Ok (cands, score) ->
  cands <> [] ->
  detect_unit_ref query = Some u ->
  detect_lang query = Some l ->
  detect_variant query = Some v ->
  run_flow CATALOG extractOne query ud
  = Ok (finalize_and_send
          (mkFlow (Some query) cands (Some u) (Some l) (Some v)
                  (f_stage (ensure_flow ud))))
  /\ exists m, run_flow CATALOG extractOne query ud = Ok (None, [m])
               /\ (m = NoDocument \/ exists x, m = Deliver x).
Proof.
  intros Hc Hne Hu Hl Hv.
  assert (E : run_flow CATALOG extractOne query ud
              = Ok (finalize_and_send
                      (mkFlow (Some query) cands (Some u) (Some l) (Some v)
                              (f_stage (ensure_flow ud))))).
  { unfold run_flow. rewrite Hc. cbn [bind].
    destruct cands as [|c0 cs]; [contradiction|]. cbn [is_empty].
    pose proof (detect_unit_ref_truthy _ _ Hu) as Tu.
    pose proof (detect_lang_truthy _ _ Hl) as Tl.
    pose proof (detect_variant_truthy _ _ Hv) as Tv.
    assert (Eg : set_cands (c0 :: cs) (prefill query ud)
                 = mkFlow (Some query) (c0 :: cs) (Some u) (Some l) (Some v)
                          (f_stage (ensure_flow ud))).
    { unfold prefill, py_or. rewrite Hu, Hl, Hv, Tu, Tl, Tv. reflexivity. }
    rewrite Eg, evaluate_slots_unit_set by exact Tu.
    cbn [f_lang f_variant]. rewrite Tl, Tv. reflexivity. }
  split; [exact E|]. rewrite E.
  destruct (finalize_and_send_final
              (mkFlow (Some query) cands (Some u) (Some l) (Some v)
                      (f_stage (ensure_flow ud)))) as [F|[x F]];
    rewrite F; eauto.
Qed.

(** X24.  A unit named in the query that no candidate has leads nowhere.
    The run either reports at once that there is no document and closes
    the session, or asks for the language or the variant and leaves the
    session open with the new query, the candidates and the named unit in
    the unit slot.  The unit is never asked and nothing is delivered, and
    finalize on the open session reports no document whatever language and
    variant are answered. *)
Theorem run_flow_unknown_unit_never_delivers (query : string) (ud : user_data)
        (cands : list entry) (score : Q) (u : string) :
  candidates_for_query CATALOG extractOne query = Ok (cands, score) ->
  cands <> [] ->
  detect_unit_ref query = Some u ->
  (forall x, In x cands -> unit_ref x <> u) ->
  exists ud' out,
    run_flow CATALOG extractOne query ud = Ok (ud', out)
    /\ ((ud' = None /\ out = [NoDocument])
        \/ exists f',
            ud' = Some f'
            /\ (out = [AskLang] \/ out = [AskVariant])
            /\ f_unit_ref f' = Some u
            /\ f_cands f' = cands
            /\ f_query f' = Some query)
    /\ (forall cs, ~ In (AskUnit cs) out)
    /\ (forall x, ~ In (Deliver x) out)
    /\ (forall f' l v, ud' = Some f' ->
          finalize_and_send (set_variant v (set_lang l f'))
          = (None, [NoDocument])).
Proof.
  intros Hc Hne Hu Hnone.
  pose proof (detect_unit_ref_truthy _ _ Hu) as Tu.
  assert (Hfin : forall q l v st,
             finalize_and_send (mkFlow q cands (Some u) l v st)
             = (None, [NoDocument])).
  { intros q l v st. unfold finalize_and_send.
    assert (E : finalize_docs (mkFlow q cands (Some u) l v st) = []).
    { apply finalize_docs_last_step. cbn [f_cands f_unit_ref].
      unfold filter_doc, filter_if. rewrite Tu. cbn.
      clear Hc Hne. induction cands as [|x cs IH]; cbn; [reflexivity|].
      destruct (String.eqb_spec (unit_ref x) u) as [E|_].
      - exfalso. exact (Hnone x (or_introl eq_refl) E).
      - apply IH. intros y Hy. apply Hnone. right. exact Hy. }
    rewrite E. reflexivity. }
  unfold run_flow. rewrite Hc. cbn [bind].
  destruct cands as [|c0 cs] eqn:Ecs; [contradiction|]. cbn [is_empty].
  rewrite <- Ecs in *.
  set (g := set_cands cands (prefill query ud)).
  assert (Eg : g = mkFlow (Some query) cands (Some u) (f_lang g) (f_variant g)
                          (f_stage g)).
  { unfold g, prefill. rewrite Hu, Tu. reflexivity. }
  assert (Tg : truthy (f_unit_ref g) = true) by (rewrite Eg; exact Tu).
  rewrite (evaluate_slots_unit_set g Tg).
  destruct (truthy (f_lang g)); [destruct (truthy (f_variant g))|].
  - rewrite Eg, Hfin. do 2 eexists. split; [reflexivity|].
    split; [left; split; reflexivity|]. repeat split.
    + intros cs' [H|[]]. discriminate.
    + intros x [H|[]]. discriminate.
    + intros f' l v H. discriminate.
  - do 2 eexists. split; [reflexivity|].
    split.
    { right. eexists. split; [reflexivity|]. split; [right; reflexivity|].
      rewrite Eg. cbn. auto. }
    repeat split.
    + intros cs' [H|[]]. discriminate.
    + intros x [H|[]]. discriminate.
    + intros f' l v H. inversion H; subst f'. rewrite Eg. apply Hfin.
  - do 2 eexists. split; [reflexivity|].
    split.
    { right. eexists. split; [reflexivity|]. split; [left; reflexivity|].
      rewrite Eg. cbn. auto. }
    repeat split.
    + intros cs' [H|[]]. discriminate.
    + intros x [H|[]]. discriminate.
    + intros f' l v H. inversion H; subst f'. rewrite Eg. apply Hfin.
Qed.

End RunFacts.

Lemma run_flow_all_detected_finalizes_witness :
  candidates_for_query Sample.catalog Sample.prefix_scorer
                       "Pardo P43 #126 broker en"
  = Ok ([Sample.p43_126_es; Sample.p43_126_en], 100%Q)
  /\ detect_unit_ref "Pardo P43 #126 broker en" = Some "126"
  /\ detect_lang "Pardo P43 #126 broker en" = Some "en"
  /\ detect_variant "Pardo P43 #126 broker en" = Some "broker"
  /\ run_flow Sample.catalog Sample.prefix_scorer "Pardo P43 #126 broker en"
              (Some Sample.flow_awaiting_unit)
     = Ok (None, [Deliver Sample.p43_126_en]).
Proof.
  assert (H1 : candidates_for_query Sample.catalog Sample.prefix_scorer
                                    "Pardo P43 #126 broker en"
               = Ok ([Sample.p43_126_es; Sample.p43_126_en], 100%Q))
    by (vm_compute; reflexivity).
  assert (H2 : detect_unit_ref "Pardo P43 #126 broker en" = Some "126")
    by (vm_compute; reflexivity).
  assert (H3 : detect_lang "Pardo P43 #126 broker en" = Some "en")
    by (vm_compute; reflexivity).
  assert (H4 : detect_variant "Pardo P43 #126 broker en" = Some "broker")
    by (vm_compute; reflexivity).
  repeat (split; [assumption|]).
  rewrite (proj1 (run_flow_all_detected_finalizes
                    Sample.catalog Sample.prefix_scorer
                    "Pardo P43 #126 broker en"
                    (Some Sample.flow_awaiting_unit) _ _ _ _ _
                    H1 ltac:(discriminate) H2 H3 H4)).
  reflexivity.
Defined.

Lemma run_flow_unknown_unit_never_delivers_witness :
  candidates_for_query Sample.catalog Sample.prefix_scorer "SO455 #49"
  = Ok ([Sample.so455_12_es], 100%Q)
  /\ detect_unit_ref "SO455 #49" = Some "49"
  /\ (forall x, In x [Sample.so455_12_es] -> unit_ref x <> "49")
  /\ exists ud' out,
      run_flow Sample.catalog Sample.prefix_scorer "SO455 #49" None
      = Ok (ud', out)
      /\ ((ud' = None /\ out = [NoDocument])
          \/ exists f',
              ud' = Some f'
              /\ (out = [AskLang] \/ out = [AskVariant])
              /\ f_unit_ref f' = Some "49"
              /\ f_cands f' = [Sample.so455_12_es]
              /\ f_query f' = Some "SO455 #49")
      /\ (forall x, ~ In (Deliver x) out)
      /\ (forall f' l v, ud' = Some f' ->
            finalize_and_send (set_variant v (set_lang l f'))
            = (None, [NoDocument])).
Proof.
  assert (H1 : candidates_for_query Sample.catalog Sample.prefix_scorer
                                    "SO455 #49"
               = Ok ([Sample.so455_12_es], 100%Q)) by (vm_compute; reflexivity).
  assert (H2 : detect_unit_ref "SO455 #49" = Some "49")
    by (vm_compute; reflexivity).
  assert (H3 : forall x, In x [Sample.so455_12_es] -> unit_ref x <> "49").
  { intros x [<-|[]]. discriminate. }
  repeat (split; [assumption|]).
  destruct (run_flow_unknown_unit_never_delivers
              Sample.catalog Sample.prefix_scorer "SO455 #49" None _ _ _
              H1 ltac:(discriminate) H2 H3)
    as [ud' [out [E [Hshape [_ [Hd Hf]]]]]].
  exists ud', out. auto.
Defined.

(** ** Answers in a row *)

Lemma three_answers_finalize (f : flow) (u l v : string) :
  handle_callback ("VAR:" ++ v)
    (fst (handle_callback ("LANG:" ++ l)
            (fst (handle_callback ("UNIT:" ++ u) (Some f)))))
  = (None,
     AckVariant v
       :: snd (finalize_and_send
                 (set_variant (Some v)
                    (set_lang (Some l) (set_unit_ref (Some u) f))))).
Proof.
  unfold handle_callback at 3. cbn -[handle_callback finalize_and_send].
  unfold ask_lang. cbn [f_lang set_unit_ref].
  destruct (truthy (f_lang f));
    cbn [fst];
    unfold handle_callback at 2; cbn -[handle_callback finalize_and_send];
    unfold ask_variant; cbn [f_variant set_lang set_unit_ref set_stage];
    destruct (truthy (f_variant f));
    cbn [fst];
    unfold handle_callback, finalize_and_send; cbn -[finalize_docs];
    match goal with
    | |- context [finalize_docs ?a] =>
        change (finalize_docs a)
          with (finalize_docs
                  (set_variant (Some v)
                     (set_lang (Some l) (set_unit_ref (Some u) f))))
    end;
    destruct (finalize_docs
                (set_variant (Some v)
                   (set_lang (Some l) (set_unit_ref (Some u) f))));
    reflexivity.
Qed.

(** X23.  Answering the unit, the language and the variant in turn, from
    any session, delivers the first candidate that has exactly the three
    answered values when there is one, and closes the session. *)
Theorem three_answers_deliver_exact_match (f : flow) (u l v : string)
        (x : entry) (rest : list entry) :
  filter_doc (f_cands f) (Some u) (Some l) (Some v) = x :: rest ->
  handle_callback ("VAR:" ++ v)
    (fst (handle_callback ("LANG:" ++ l)
            (fst (handle_callback ("UNIT:" ++ u) (Some f)))))
  = (None, [AckVariant v; Deliver x]).
Proof.
  intros H. rewrite three_answers_finalize. unfold finalize_and_send.
  rewrite finalize_docs_exact; cbn [f_cands f_unit_ref f_lang f_variant
                                    set_variant set_lang set_unit_ref];
    rewrite H; [reflexivity | discriminate].
Qed.

Lemma three_answers_deliver_exact_match_witness :
  filter_doc (f_cands Sample.flow_awaiting_unit)
             (Some "126") (Some "en") (Some "broker")
  = [Sample.p43_126_en]
  /\ handle_callback "VAR:broker"
       (fst (handle_callback "LANG:en"
               (fst (handle_callback "UNIT:126"
                       (Some Sample.flow_awaiting_unit)))))
     = (None, [AckVariant "broker"; Deliver Sample.p43_126_en]).
Proof.
  assert (H : filter_doc (f_cands Sample.flow_awaiting_unit)
                         (Some "126") (Some "en") (Some "broker")
              = [Sample.p43_126_en]) by reflexivity.
  split; [exact H|].
  exact (three_answers_deliver_exact_match
           Sample.flow_awaiting_unit "126" "en" "broker" _ _ H).
Defined.

(** ** Runs that cannot end without a document *)

Lemma finalize_docs_of_candidate_unit q cands a l v st :
  In a cands ->
  finalize_docs (mkFlow q cands (Some (unit_ref a)) l v st) <> [].
Proof.
  intros Ha H. apply finalize_docs_last_step in H. cbn [f_cands f_unit_ref] in H.
  assert (Hin : In a (filter_doc cands (Some (unit_ref a)) None None)).
  { rewrite filter_doc_fused. apply filter_In. split; [exact Ha|].
    cbn [slot_ok]. rewrite String.eqb_refl, orb_true_r. reflexivity. }
  rewrite H in Hin. contradiction.
Qed.

(** X25.  When neither the query nor the session names a unit, a query
    with candidates never ends without a document.  The run asks for the
    unit and leaves the session open with the candidates; or it fills the
    unit slot with the unit of a candidate and asks for the language or
    the variant; or it delivers a candidate and closes the session.  It
    never reports that there is no card or no document. *)
Theorem run_flow_without_unit_never_fails (CATALOG : list entry)
        (extractOne : string -> list string -> option (string * Q * nat))
        (query : string) (ud : user_data) (cands : list entry) (score : Q) :
  candidates_for_query CATALOG extractOne query = Ok (cands, score) ->
  cands <> [] ->
  detect_unit_ref query = None ->
  truthy (f_unit_ref (ensure_flow ud)) = false ->
  exists ud' out,
    run_flow CATALOG extractOne query ud = Ok (ud', out)
    /\ ((exists f' cs,
           ud' = Some f' /\ out = [AskUnit cs] /\ f_cands f' = cands)
        \/ (exists f' a,
              ud' = Some f'
              /\ (out = [AskLang] \/ out = [AskVariant])
              /\ f_cands f' = cands
              /\ In a cands /\ f_unit_ref f' = Some (unit_ref a))
        \/ (exists x, ud' = None /\ out = [Deliver x] /\ In x cands))
    /\ ~ In NoDocument out /\ ~ In NoCardFound out.
Proof.
  intros Hc Hne Hu Hold.
  unfold run_flow. rewrite Hc. cbn [bind].
  destruct cands as [|c0 cs] eqn:Ecs; [contradiction|]. cbn [is_empty].
  rewrite <- Ecs in *.
  set (g := set_cands cands (prefill query ud)).
  assert (Eg : forall w, set_unit_ref w g
                         = mkFlow (f_query g) cands w (f_lang g) (f_variant g)
                                  (f_stage g)) by reflexivity.
  assert (Tg : truthy (f_unit_ref g) = false).
  { unfold g, prefill. rewrite Hu. exact Hold. }
  rewrite (evaluate_slots_unit_unset g Tg).
  change (f_cands g) with cands.
  pose proof (unique_units_incl cands) as Hincl.
  pose proof (unique_units_covers cands) as Hcov.
  destruct (unique_units cands) as [|a [|b r]] eqn:Eq.
  - exfalso. assert (Hc0 : In c0 cands) by (rewrite Ecs; left; reflexivity).
    destruct (Hcov c0 Hc0) as [w [[] _]].
  - cbv zeta. specialize (Hincl a (or_introl eq_refl)).
    destruct (truthy (f_lang g)); [destruct (truthy (f_variant g))|].
    + rewrite Eg. unfold finalize_and_send.
      pose proof (finalize_docs_of_candidate_unit (f_query g) cands a
                    (f_lang g) (f_variant g) (f_stage g) Hincl) as Hd.
      pose proof (finalize_docs_incl
                    (mkFlow (f_query g) cands (Some (unit_ref a)) (f_lang g)
                            (f_variant g) (f_stage g))) as Hin.
      destruct (finalize_docs _) as [|x rest]; [contradiction|].
      do 2 eexists. split; [reflexivity|]. split.
      { right. right. exists x. split; [reflexivity|]. split; [reflexivity|].
        apply (Hin x). left. reflexivity. }
      split; intros [H|[]]; discriminate.
    + do 2 eexists. split; [reflexivity|]. split.
      { right. left. eexists. exists a. split; [reflexivity|].
        split; [right; reflexivity|]. rewrite Eg. cbn. auto. }
      split; intros [H|[]]; discriminate.
    + do 2 eexists. split; [reflexivity|]. split.
      { right. left. eexists. exists a. split; [reflexivity|].
        split; [left; reflexivity|]. rewrite Eg. cbn. auto. }
      split; intros [H|[]]; discriminate.
  - do 2 eexists. split; [reflexivity|]. split.
    { left. do 2 eexists. split; [reflexivity|]. split; reflexivity. }
    split; intros [H|[]]; discriminate.
Qed.

Lemma run_flow_without_unit_never_fails_witness :
  candidates_for_query Sample.catalog Sample.prefix_scorer "so455 en broker"
  = Ok ([Sample.so455_12_es], 100%Q)
  /\ detect_unit_ref "so455 en broker" = None
  /\ truthy (f_unit_ref (ensure_flow None)) = false
  /\ exists ud' out,
      run_flow Sample.catalog Sample.prefix_scorer "so455 en broker" None
      = Ok (ud', out)
      /\ ((exists f' cs,
             ud' = Some f' /\ out = [AskUnit cs]
             /\ f_cands f' = [Sample.so455_12_es])
          \/ (exists f' a,
                ud' = Some f'
                /\ (out = [AskLang] \/ out = [AskVariant])
                /\ f_cands f' = [Sample.so455_12_es]
                /\ In a [Sample.so455_12_es]
                /\ f_unit_ref f' = Some (unit_ref a))
          \/ (exists x, ud' = None /\ out = [Deliver x]
                        /\ In x [Sample.so455_12_es]))
      /\ ~ In NoDocument out /\ ~ In NoCardFound out.
Proof.
  assert (H1 : candidates_for_query Sample.catalog Sample.prefix_scorer
                                    "so455 en broker"
               = Ok ([Sample.so455_12_es], 100%Q)) by (vm_compute; reflexivity).
  assert (H2 : detect_unit_ref "so455 en broker" = None)
    by (vm_compute; reflexivity).
  assert (H3 : truthy (f_unit_ref (ensure_flow None)) = false) by reflexivity.
  repeat (split; [assumption|]).
  exact (run_flow_without_unit_never_fails
           Sample.catalog Sample.prefix_scorer "so455 en broker" None _ _
           H1 ltac:(discriminate) H2 H3).
Defined.

(** ** What an answer cannot touch *)

(** X26.  An answer changes neither the stored query nor the stored
    candidates, and whatever it delivers is one of the stored candidates:
    on a session without candidates (in particular after the session was
    cleared) no answer can deliver a document. *)
Theorem handle_callback_keeps_candidates (data : string) (ud ud' : user_data)
        (out : list msg) :
  handle_callback data ud = (ud', out) ->
  (forall f', ud' = Some f' ->
     f_cands f' = f_cands (ensure_flow ud)
     /\ f_query f' = f_query (ensure_flow ud))
  /\ (forall x, In (Deliver x) out -> In x (f_cands (ensure_flow ud))).
Proof.
  unfold handle_callback. set (f := ensure_flow ud).
  destruct (String.eqb data "CANCEL").
  { intros H. inversion H; subst. split.
    - intros f' E. discriminate.
    - intros x [E|[]]. discriminate. }
  destruct (strip_prefix "UNIT:" data) as [u|].
  { unfold ask_lang. cbn [f_lang set_unit_ref].
    destruct (truthy (f_lang f)); intros H; inversion H; subst; split;
      try (intros f' E; inversion E; subst; split; reflexivity);
      intros x Hx; cbn in Hx; intuition discriminate. }
  destruct (strip_prefix "LANG:" data) as [l|].
  { unfold ask_variant. cbn [f_variant set_lang].
    destruct (truthy (f_variant f)); intros H; inversion H; subst; split;
      try (intros f' E; inversion E; subst; split; reflexivity);
      intros x Hx; cbn in Hx; intuition discriminate. }
  destruct (strip_prefix "VAR:" data) as [v|].
  { unfold finalize_and_send.
    pose proof (finalize_docs_incl (set_variant (Some v) f)) as Hincl.
    destruct (finalize_docs (set_variant (Some v) f)) as [|y r];
      intros H; inversion H; subst; split;
      try (intros f' E; discriminate);
      intros x Hx; cbn in Hx.
    - intuition discriminate.
    - destruct Hx as [E|[E|[]]]; [discriminate|].
      inversion E; subst. apply (Hincl x). left. reflexivity. }
  intros H. inversion H; subst. split.
  - intros f' E. inversion E; subst. split; reflexivity.
  - intros x [].
Qed.

Lemma handle_callback_keeps_candidates_witness :
  handle_callback "VAR:broker" None = (None, [AckVariant "broker"; NoDocument])
  /\ forall x, In (Deliver x) [AckVariant "broker"; NoDocument] ->
               In x (f_cands (ensure_flow None)).
Proof.
  assert (H : handle_callback "VAR:broker" None
              = (None, [AckVariant "broker"; NoDocument])) by reflexivity.
  split; [exact H|].
  exact (proj2 (handle_callback_keeps_candidates "VAR:broker" None _ _ H)).
Defined.

(** ** The aliases read from a row *)

Lemma sall_rev_string p cur : forall acc,
  sall p (rev_string acc cur) = (sall p cur && sall p acc)%bool.
Proof.
  induction cur as [|c cur IH]; intros acc; cbn; [reflexivity|].
  rewrite IH. cbn. destruct (p c), (sall p cur), (sall p acc); reflexivity.
Qed.

Lemma split_on_pieces sep s : forall cur,
  sall (fun c => negb (Ascii.eqb c sep)) cur = true ->
  Forall (fun a => sall (fun c => negb (Ascii.eqb c sep)) a = true)
         (split_on sep cur s).
Proof.
  induction s as [|c s IH]; intros cur Hcur; cbn.
  - constructor; [|constructor]. rewrite sall_rev_string, Hcur. reflexivity.
  - destruct (Ascii.eqb c sep) eqn:E.
    + constructor; [rewrite sall_rev_string, Hcur; reflexivity|].
      apply IH. reflexivity.
    + apply IH. cbn. rewrite E, Hcur. reflexivity.
Qed.

(** X27.  An alias read from the Aliases cell is never empty, has no
    whitespace at either end and holds no separator [|]: blank pieces
    between separators are dropped. *)
Theorem parse_aliases_clean (raw_aliases a : string) :
  In a (parse_aliases raw_aliases) ->
  a <> ""
  /\ strip a = a
  /\ sall (fun c => negb (Ascii.eqb c "|")) a = true.
Proof.
  unfold parse_aliases. intros H.
  apply in_map_iff in H as [p [<- Hp]].
  apply filter_In in Hp as [Hp Hne].
  apply negb_true_iff in Hne. apply String.eqb_neq in Hne.
  split; [exact Hne|]. split; [apply strip_idempotent|].
  pose proof (split_on_pieces "|" raw_aliases "" eq_refl) as Hall.
  rewrite Forall_forall in Hall. specialize (Hall p Hp).
  unfold strip. apply sall_rstrip, sall_lstrip. exact Hall.
Qed.

Lemma parse_aliases_clean_witness :
  parse_aliases " SO455 | |Sun Odyssey 455 ||" = ["SO455"; "Sun Odyssey 455"]
  /\ In "SO455" (parse_aliases " SO455 | |Sun Odyssey 455 ||")
  /\ "SO455" <> ""
  /\ strip "SO455" = "SO455"
  /\ sall (fun c => negb (Ascii.eqb c "|")) "SO455" = true.
Proof.
  assert (E : parse_aliases " SO455 | |Sun Odyssey 455 ||"
              = ["SO455"; "Sun Odyssey 455"]) by (vm_compute; reflexivity).
  assert (H : In "SO455" (parse_aliases " SO455 | |Sun Odyssey 455 ||"))
    by (rewrite E; left; reflexivity).
  split; [exact E|]. split; [exact H|].
  exact (parse_aliases_clean _ _ H).
Defined.
